(** * The extension server of crosswalk-tizen

    A shallow embedding of [src/extension/extension_server.cc]: the module
    registry ([extensions_], [extension_symbols_]), the instance table
    ([instances_]) and the five D-Bus handlers, written as state-passing
    functions over the members of [ExtensionServer] and over the part of the
    process environment the server acts on (the id generator, the loader, the
    bus).  The two [std::map]s are [gmap]s keyed by [string], the [std::set]
    is a [gset string]. *)

From stdpp Require Import base strings list gmap fin_maps fin_sets.
From stdpp Require Import sorting.

Local Open Scope list_scope.

(** ** What lives outside the server *)

(** [GDBusMethodInvocation*]: the handle on which one method call is
    answered. *)
Definition Invocation := nat.

(** [GDBusConnection*]; [None] is the null pointer. *)
Definition Connection := option nat.

Inductive LogLevel := DEBUG | INFO | WARN | ERROR.

(** Everything the server does to the outside, in the order it does it. *)
Inductive Event :=
| Logged (level : LogLevel) (text : string)
    (* LOGGER(level) << text *)
| ReturnValue (invocation : Invocation) (value : string)
    (* g_dbus_method_invocation_return_value(invocation, "(s)" value) *)
| ReturnError (invocation : Invocation) (text : string)
    (* g_dbus_method_invocation_return_error(invocation, G_DBUS_ERROR,
       G_DBUS_ERROR_FAILED, text) *)
| SendSignal (connection : nat) (iface signal instance_id msg : string)
    (* dbus_server_.SendSignal(connection, iface, signal, "(ss)") *)
| DeleteInstance (instance_id : string)
    (* delete instance, for the object stored under instance_id *)
| SetIntrospectionXML (xml : string)
| SetMethodCallback (iface : string)
| ServerStart (bus_name : string)
    (* dbus_server_.Start(bus_name) *)
| ClientCall (iface method arg : string).
    (* dbus_application_client_.Call(iface, method, "(s)" arg) *)

(** The calls a native module makes back into its instance while it handles
    a message. *)
Inductive Outcall :=
| PostMessageToJS (msg : string)
| SyncReplyToJS (reply : string).

(** Which entry point of the instance a message was handed to. *)
Inductive Delivery := ToHandleMessage | ToHandleSyncMessage.

(** The native code behind one instance: what it calls back, given the
    messages it has been handed so far and the one it is handed now. *)
Record InstanceLogic := {
  handle_msg : list (Delivery * string) → string → list Outcall;
  handle_sync_msg : list (Delivery * string) → string → list Outcall
}.

(** What [Extension::Initialize] learns from the loaded library. *)
Record ModuleInfo := {
  info_name : string;
  info_javascript_api : string;
  info_entry_points : list string;
  info_factory : option InstanceLogic
}.

(** Modelled from the spec: class [Extension] of [extension/extension.h],
    which is not among the sources; "a name, a capability description, a list
    of exposed entry-point symbols, and a factory for instances", together
    with the path it was constructed with. *)
Record Extension := {
  library_path_ : string;
  info : ModuleInfo
}.

Definition name (ext : Extension) : string := info_name (info ext).
Definition javascript_api (ext : Extension) : string :=
  info_javascript_api (info ext).
Definition entry_points (ext : Extension) : list string :=
  info_entry_points (info ext).

(** Modelled from the spec: class [ExtensionInstance] of
    [extension/extension_instance.h], which is not among the sources.  The two
    callbacks are the [std::bind] closures the server installs, kept as the
    arguments they were bound with: [PostMessageToJSCallback] with a
    connection and an instance id, [SyncReplyCallback] with an invocation. *)
Record ExtensionInstance := {
  extension_ : string;
  logic : InstanceLogic;
  received : list (Delivery * string);
  post_message_callback_ : option (Connection * string);
  send_sync_reply_callback_ : option Invocation
}.

(** The services of the platform the server calls: the bus client, [glob],
    [utils::Exists], the loader behind [Extension::Initialize],
    [utils::GenerateUUID] (the id its n-th call returns) and the constants of
    [common/constants.h]. *)
Record Platform := {
  ConnectByName : string → bool;
  glob : string → list string;
  Exists : string → bool;
  Initialize : string → option ModuleInfo;
  uuid_source : nat → string;
  g_dbus_connection_is_closed : nat → bool;
  GetClientAddress : string;
  EXTENSION_PATH : string;
  kDBusNameForApplication : string;
  kDBusNameForExtension : string;
  kDBusInterfaceNameForApplication : string;
  kDBusInterfaceNameForExtension : string;
  kMethodNotifyEPCreated : string;
  kSignalOnMessageToJS : string
}.

Definition kExtensionPrefix : string := "lib".
Definition kExtensionSuffix : string := ".so".

Definition kDBusIntrospectionXML : string :=
  "<node>" +:+
  "  <interface name='org.tizen.wrt.Extension'>" +:+
  "    <method name='GetExtensions'>" +:+
  "      <arg name='extensions' type='a(ssas)' direction='out' />" +:+
  "    </method>" +:+
  "    <method name='CreateInstance'>" +:+
  "      <arg name='extension_name' type='s' direction='in' />" +:+
  "      <arg name='instance_id' type='s' direction='out' />" +:+
  "    </method>" +:+
  "    <method name='DestroyInstance'>" +:+
  "      <arg name='instance_id' type='s' direction='in' />" +:+
  "      <arg name='instance_id' type='s' direction='out' />" +:+
  "    </method>" +:+
  "    <method name='PostMessage'>" +:+
  "      <arg name='instance_id' type='s' direction='in' />" +:+
  "      <arg name='msg' type='s' direction='in' />" +:+
  "    </method>" +:+
  "    <method name='SendSyncMessage'>" +:+
  "      <arg name='instance_id' type='s' direction='in' />" +:+
  "      <arg name='msg' type='s' direction='in' />" +:+
  "      <arg name='reply' type='s' direction='out' />" +:+
  "    </method>" +:+
  "    <signal name='OnMessageToJS'>" +:+
  "      <arg name='instance_id' type='s' />" +:+
  "      <arg name='msg' type='s' />" +:+
  "    </signal>" +:+
  "  </interface>" +:+
  "</node>".

(** ** The server *)

(** The members of [ExtensionServer], followed by the two pieces of the
    environment its methods change: how many ids [utils::GenerateUUID] has
    handed out, and the trace of outside effects. *)
Record State := {
  app_uuid_ : string;
  extensions_ : gmap string Extension;
  extension_symbols_ : gset string;
  instances_ : gmap string ExtensionInstance;
  uuids_drawn : nat;
  trace : list Event
}.

(** [ExtensionServer::ExtensionServer(uuid)] *)
Definition new_ExtensionServer (uuid : string) : State :=
  {| app_uuid_ := uuid; extensions_ := ∅; extension_symbols_ := ∅;
     instances_ := ∅; uuids_drawn := 0; trace := [] |}.

Definition set_extensions (f : gmap string Extension → gmap string Extension)
    (st : State) : State :=
  {| app_uuid_ := app_uuid_ st; extensions_ := f (extensions_ st);
     extension_symbols_ := extension_symbols_ st;
     instances_ := instances_ st; uuids_drawn := uuids_drawn st;
     trace := trace st |}.

Definition set_extension_symbols (f : gset string → gset string)
    (st : State) : State :=
  {| app_uuid_ := app_uuid_ st; extensions_ := extensions_ st;
     extension_symbols_ := f (extension_symbols_ st);
     instances_ := instances_ st; uuids_drawn := uuids_drawn st;
     trace := trace st |}.

Definition set_instances
    (f : gmap string ExtensionInstance → gmap string ExtensionInstance)
    (st : State) : State :=
  {| app_uuid_ := app_uuid_ st; extensions_ := extensions_ st;
     extension_symbols_ := extension_symbols_ st;
     instances_ := f (instances_ st); uuids_drawn := uuids_drawn st;
     trace := trace st |}.

Definition emit (e : Event) (st : State) : State :=
  {| app_uuid_ := app_uuid_ st; extensions_ := extensions_ st;
     extension_symbols_ := extension_symbols_ st;
     instances_ := instances_ st; uuids_drawn := uuids_drawn st;
     trace := trace st ++ [e] |}.

Definition LOGGER (level : LogLevel) (text : string) : State → State :=
  emit (Logged level text).

(** Modelled from the spec: the two setters of [ExtensionInstance], which
    are not among the sources; each stores the sink it is given. *)
Definition SetPostMessageCallback (callback : Connection * string)
    (instance : ExtensionInstance) : ExtensionInstance :=
  {| extension_ := extension_ instance; logic := logic instance;
     received := received instance;
     post_message_callback_ := Some callback;
     send_sync_reply_callback_ := send_sync_reply_callback_ instance |}.

Definition SetSendSyncReplyCallback (callback : Invocation)
    (instance : ExtensionInstance) : ExtensionInstance :=
  {| extension_ := extension_ instance; logic := logic instance;
     received := received instance;
     post_message_callback_ := post_message_callback_ instance;
     send_sync_reply_callback_ := Some callback |}.

(** The instance after its native code has been handed one more message. *)
Definition deliver (d : Delivery) (msg : string)
    (instance : ExtensionInstance) : ExtensionInstance :=
  {| extension_ := extension_ instance; logic := logic instance;
     received := received instance ++ [(d, msg)];
     post_message_callback_ := post_message_callback_ instance;
     send_sync_reply_callback_ := send_sync_reply_callback_ instance |}.

(** Modelled from the spec: the reply sink of an instance is "cleared after
    the reply is delivered"; this is the instance with the sink cleared. *)
Definition clear_sink (instance : ExtensionInstance) : ExtensionInstance :=
  {| extension_ := extension_ instance; logic := logic instance;
     received := received instance;
     post_message_callback_ := post_message_callback_ instance;
     send_sync_reply_callback_ := None |}.

(** What a [std::string] is when it is handed on through [c_str()] and read
    as a C string: its bytes before the first NUL. *)
Fixpoint as_c_string (s : string) : string :=
  match s with
  | EmptyString => EmptyString
  | String b rest =>
      if decide (b = Ascii.zero) then EmptyString
      else String b (as_c_string rest)
  end.

(** Modelled from the spec: [Extension::CreateInstance], which is not among
    the sources; the module's factory, which "fails only if the module
    refuses to produce an instance".  [None] is the null pointer; a new
    instance has no callback yet. *)
Definition CreateInstance (ext : Extension) : option ExtensionInstance :=
  match info_factory (info ext) with
  | None => None
  | Some l =>
      Some {| extension_ := name ext; logic := l; received := [];
              post_message_callback_ := None;
              send_sync_reply_callback_ := None |}
  end.

(** The first entry point that is already in the symbol set: the loop with
    the early [return false] of [RegisterSymbols]. *)
Fixpoint first_registered (symbols : gset string) (eps : list string)
    : option string :=
  match eps with
  | [] => None
  | ep :: rest =>
      if decide (ep ∈ symbols) then Some ep
      else first_registered symbols rest
  end.

(** The second loop of [RegisterSymbols]: each entry point in turn is
    inserted into [extension_symbols_]. *)
Definition insert_all (eps : list string) (symbols : gset string)
    : gset string :=
  foldl (λ s ep, {[ep]} ∪ s) symbols eps.

(** [ExtensionServer::RegisterSymbols] *)
Definition RegisterSymbols (extension : Extension) (st : State)
    : bool * State :=
  let name := name extension in
  if decide (name ∈ extension_symbols_ st) then
    (false,
     LOGGER WARN
       ("Ignoring extension with name already registred. '" +:+ name +:+ "'")
       st)
  else
    let entry_points := entry_points extension in
    match first_registered (extension_symbols_ st) entry_points with
    | Some ep =>
        (false,
         LOGGER WARN
           ("Ignoring extension with entry_point already registred. '"
              +:+ ep +:+ "'")
           st)
    | None =>
        let st := set_extension_symbols (insert_all entry_points) st in
        let st := set_extension_symbols (λ s, {[name]} ∪ s) st in
        (true, st)
    end.

Section Server.

Variable env : Platform.

(** [ExtensionServer::RegisterExtension] *)
Definition RegisterExtension (path : string) (st : State) : State :=
  match Initialize env path with
  | None => st
  | Some i =>
      let ext := {| library_path_ := path; info := i |} in
      let '(ok, st') := RegisterSymbols ext st in
      if ok then
        LOGGER DEBUG (name ext +:+ " is registered.")
          (set_extensions (<[name ext := ext]>) st')
      else st'
  end.

(** [ExtensionServer::RegisterSystemExtensions] *)
Definition RegisterSystemExtensions (st : State) : State :=
  let extension_path :=
    EXTENSION_PATH env +:+ "/" +:+ kExtensionPrefix +:+ "*"
      +:+ kExtensionSuffix in
  foldl (λ st path, RegisterExtension path st) st (glob env extension_path).

(** [ExtensionServer::NotifyEPCreatedToApplication] *)
Definition NotifyEPCreatedToApplication (st : State) : State :=
  emit (ClientCall (kDBusInterfaceNameForApplication env)
          (kMethodNotifyEPCreated env) (GetClientAddress env)) st.

(** [ExtensionServer::Start(paths)] *)
Definition Start (paths : list string) (st : State) : bool * State :=
  if negb (ConnectByName env
             (app_uuid_ st +:+ "." +:+ kDBusNameForApplication env)) then
    (false,
     LOGGER ERROR "Failed to connect to the dbus server for Application." st)
  else
    let st := RegisterSystemExtensions st in
    let st :=
      foldl (λ st path, if Exists env path then RegisterExtension path st
                        else st) st paths in
    let st := emit (SetIntrospectionXML kDBusIntrospectionXML) st in
    let st := emit (SetMethodCallback (kDBusInterfaceNameForExtension env))
                st in
    let st := emit (ServerStart
                      (app_uuid_ st +:+ "." +:+ kDBusNameForExtension env))
                st in
    let st := NotifyEPCreatedToApplication st in
    (true, st).

(** [utils::GenerateUUID()] *)
Definition GenerateUUID (st : State) : string * State :=
  (uuid_source env (uuids_drawn st),
   {| app_uuid_ := app_uuid_ st; extensions_ := extensions_ st;
      extension_symbols_ := extension_symbols_ st;
      instances_ := instances_ st; uuids_drawn := S (uuids_drawn st);
      trace := trace st |}).

(** [ExtensionServer::SyncReplyCallback] *)
Definition SyncReplyCallback (reply : string) (invocation : Invocation)
    (st : State) : State :=
  emit (ReturnValue invocation (as_c_string reply)) st.

(** [ExtensionServer::PostMessageToJSCallback] *)
Definition PostMessageToJSCallback (connection : Connection)
    (instance_id msg : string) (st : State) : State :=
  match connection with
  | None => LOGGER ERROR "Client connection is closed already." st
  | Some c =>
      if g_dbus_connection_is_closed env c then
        LOGGER ERROR "Client connection is closed already." st
      else
        emit (SendSignal c (kDBusInterfaceNameForExtension env)
                (kSignalOnMessageToJS env) (as_c_string instance_id)
                (as_c_string msg)) st
  end.

(** Modelled from the spec: [ExtensionInstance::PostMessageToJS] and
    [ExtensionInstance::SyncReplyToJS], which are not among the sources; each
    hands its argument to the sink installed on the instance, if there is
    one.  The push sink is "set once at creation" and stays; the reply sink
    is one-shot: it is "cleared after the reply is delivered".
    [instance_id] is the key under which the object sits in [instances_]. *)
Definition invoke (instance_id : string) (c : Outcall) (st : State)
    : State :=
  match instances_ st !! instance_id with
  | None => st
  | Some instance =>
      match c with
      | PostMessageToJS msg =>
          match post_message_callback_ instance with
          | Some (connection, bound_id) =>
              PostMessageToJSCallback connection bound_id msg st
          | None => st
          end
      | SyncReplyToJS reply =>
          match send_sync_reply_callback_ instance with
          | Some invocation =>
              set_instances (<[instance_id := clear_sink instance]>)
                (SyncReplyCallback reply invocation st)
          | None => st
          end
      end
  end.

Definition invoke_all (instance_id : string) (cs : list Outcall)
    (st : State) : State :=
  foldl (λ st c, invoke instance_id c st) st cs.

(** Modelled from the spec: [ExtensionInstance::HandleMessage], the
    "message-handling entry point": the native handler sees the message and
    its callbacks run before control returns.  [instance_id] is the key under
    which the object sits in [instances_]. *)
Definition HandleMessage (instance_id : string) (instance : ExtensionInstance)
    (msg : string) (st : State) : State :=
  let calls := handle_msg (logic instance) (received instance) msg in
  let instance := deliver ToHandleMessage msg instance in
  invoke_all instance_id calls
    (set_instances (<[instance_id := instance]>) st).

(** Modelled from the spec: [ExtensionInstance::HandleSyncMessage], the
    "synchronous entry point". *)
Definition HandleSyncMessage (instance_id : string)
    (instance : ExtensionInstance) (msg : string) (st : State) : State :=
  let calls := handle_sync_msg (logic instance) (received instance) msg in
  let instance := deliver ToHandleSyncMessage msg instance in
  invoke_all instance_id calls
    (set_instances (<[instance_id := instance]>) st).

(** [ExtensionServer::OnCreateInstance]; the id is the key of the table and
    is bound into the push callback as the [std::string] it is, and goes back
    to the caller through [c_str()]. *)
Definition OnCreateInstance (connection : Connection)
    (extension_name : string) (invocation : Invocation) (st : State)
    : State :=
  let '(instance_id, st) := GenerateUUID st in
  match extensions_ st !! extension_name with
  | None =>
      let st :=
        LOGGER ERROR ("Failed to find extension '" +:+ extension_name +:+ "'")
          st in
      emit (ReturnError invocation ("Not found extension " +:+ extension_name))
        st
  | Some ext =>
      match CreateInstance ext with
      | None =>
          let st :=
            LOGGER ERROR
              ("Failed to create instance of extension '"
                 +:+ extension_name +:+ "'") st in
          emit (ReturnError invocation
                  ("Failed to create instance of extension "
                     +:+ extension_name)) st
      | Some instance =>
          let instance :=
            SetPostMessageCallback (connection, instance_id) instance in
          let st := set_instances (<[instance_id := instance]>) st in
          emit (ReturnValue invocation (as_c_string instance_id)) st
      end
  end.

(** [ExtensionServer::OnDestroyInstance] *)
Definition OnDestroyInstance (instance_id : string) (invocation : Invocation)
    (st : State) : State :=
  match instances_ st !! instance_id with
  | None =>
      let st :=
        LOGGER ERROR ("Failed to find instance '" +:+ instance_id +:+ "'")
          st in
      emit (ReturnError invocation ("Not found instance " +:+ instance_id)) st
  | Some instance =>
      let st := emit (DeleteInstance instance_id) st in
      let st := set_instances (delete instance_id) st in
      emit (ReturnValue invocation instance_id) st
  end.

(** [ExtensionServer::OnSendSyncMessage] *)
Definition OnSendSyncMessage (instance_id msg : string)
    (invocation : Invocation) (st : State) : State :=
  match instances_ st !! instance_id with
  | None =>
      let st :=
        LOGGER ERROR ("Failed to find instance '" +:+ instance_id +:+ "'")
          st in
      emit (ReturnError invocation ("Not found instance " +:+ instance_id)) st
  | Some instance =>
      let instance := SetSendSyncReplyCallback invocation instance in
      let st := set_instances (<[instance_id := instance]>) st in
      HandleSyncMessage instance_id instance msg st
  end.

(** [ExtensionServer::OnPostMessage] *)
Definition OnPostMessage (instance_id msg : string) (st : State) : State :=
  match instances_ st !! instance_id with
  | None =>
      LOGGER ERROR ("Failed to find instance '" +:+ instance_id +:+ "'") st
  | Some instance => HandleMessage instance_id instance msg st
  end.

(** The decoded method calls [HandleDBusMethod] tells apart by
    [method_name], each with the arguments it unpacks from [parameters];
    they come out of [g_variant_get] as [gchar*], that is as C strings. *)
Inductive MethodCall :=
| kMethodCreateInstance (extension_name : string)
| kMethodDestroyInstance (instance_id : string)
| kMethodSendSyncMessage (instance_id msg : string)
| kMethodPostMessage (instance_id msg : string).

(** [ExtensionServer::HandleDBusMethod], for the four methods that act on
    instances. *)
Definition HandleDBusMethod (connection : Connection) (call : MethodCall)
    (invocation : Invocation) (st : State) : State :=
  match call with
  | kMethodCreateInstance extension_name =>
      OnCreateInstance connection extension_name invocation st
  | kMethodDestroyInstance instance_id =>
      OnDestroyInstance instance_id invocation st
  | kMethodSendSyncMessage instance_id msg =>
      OnSendSyncMessage instance_id msg invocation st
  | kMethodPostMessage instance_id msg =>
      OnPostMessage instance_id msg st
  end.

(** The run loop handing a sequence of inbound calls to [HandleDBusMethod],
    one after the other. *)
Definition serve (calls : list (Connection * MethodCall * Invocation))
    (st : State) : State :=
  foldl (λ st '(connection, call, invocation),
           HandleDBusMethod connection call invocation st) st calls.

End Server.

(** ** Small platforms to run the server on *)

(** The n-th id of a generator that never repeats itself: [id], [uid],
    [uuid] and so on. *)
Fixpoint unary_id (n : nat) : string :=
  match n with
  | 0 => "id"
  | S n => "u" +:+ unary_id n
  end.

Fixpoint assoc {A : Type} (key : string) (l : list (string * A)) : option A :=
  match l with
  | [] => None
  | (k, v) :: rest => if decide (k = key) then Some v else assoc key rest
  end.

(** A platform given by the files it holds: the listing of the system
    directory, and for each path the module the loader finds there. *)
Definition platform_of (online : bool) (system : list string)
    (files : list (string * ModuleInfo)) : Platform :=
  {| ConnectByName := λ _, online;
     glob := λ _, system;
     Exists := λ path, bool_decide (is_Some (assoc path files));
     Initialize := λ path, assoc path files;
     uuid_source := unary_id;
     g_dbus_connection_is_closed := λ _, false;
     GetClientAddress := "unix:path=/tmp/ext";
     EXTENSION_PATH := "/usr/lib/tizen-extensions-crosswalk";
     kDBusNameForApplication := "Application";
     kDBusNameForExtension := "Extension";
     kDBusInterfaceNameForApplication := "org.tizen.wrt.Application";
     kDBusInterfaceNameForExtension := "org.tizen.wrt.Extension";
     kMethodNotifyEPCreated := "NotifyEPCreated";
     kSignalOnMessageToJS := "OnMessageToJS" |}.

(** A module whose instances answer every synchronous message with ["pong"]
    and stay silent on asynchronous ones. *)
Definition pong_logic : InstanceLogic :=
  {| handle_msg := λ _ _, [];
     handle_sync_msg := λ _ _, [SyncReplyToJS "pong"] |}.

Definition module (n : string) (eps : list string) : ModuleInfo :=
  {| info_name := n; info_javascript_api := ""; info_entry_points := eps;
     info_factory := Some pong_logic |}.

(** A module whose factory refuses to produce instances. *)
Definition barren_module (n : string) : ModuleInfo :=
  {| info_name := n; info_javascript_api := ""; info_entry_points := [];
     info_factory := None |}.

(** The well-formedness of the registry that every admission keeps: a module
    sits under its own name, was built by the loader from its path, and its
    identifiers are in the symbol set; different modules have different names
    and none is named like an entry point of another. *)
Record registry_ok (env : Platform) (st : State) : Prop := {
  ok_key : ∀ k ext, extensions_ st !! k = Some ext → name ext = k;
  ok_loaded : ∀ k ext, extensions_ st !! k = Some ext →
    Initialize env (library_path_ ext) = Some (info ext);
  ok_name : ∀ k ext, extensions_ st !! k = Some ext →
    name ext ∈ extension_symbols_ st;
  ok_entry : ∀ k ext ep, extensions_ st !! k = Some ext →
    ep ∈ entry_points ext → ep ∈ extension_symbols_ st;
  ok_apart : ∀ k1 k2 e1 e2, extensions_ st !! k1 = Some e1 →
    extensions_ st !! k2 = Some e2 → e1 ≠ e2 →
    name e1 ≠ name e2 ∧ name e1 ∉ entry_points e2
}.

(** The ids of live instances were all handed out by the generator, and each
    instance carries, bound in its push callback, the id it is stored
    under. *)
Record instances_ok (env : Platform) (st : State) : Prop := {
  ok_issued : ∀ id inst, instances_ st !! id = Some inst →
    ∃ k, k < uuids_drawn st ∧ uuid_source env k = id;
  ok_bound : ∀ id inst, instances_ st !! id = Some inst →
    snd <$> post_message_callback_ inst = Some id
}.

(** What one call of the native code back into the instance puts on the
    trace. *)
Definition outcall_events (env : Platform) (instance : ExtensionInstance)
    (c : Outcall) : list Event :=
  match c with
  | PostMessageToJS msg =>
      match post_message_callback_ instance with
      | Some (Some conn, instance_id) =>
          if g_dbus_connection_is_closed env conn then
            [Logged ERROR "Client connection is closed already."]
          else
            [SendSignal conn (kDBusInterfaceNameForExtension env)
               (kSignalOnMessageToJS env) (as_c_string instance_id)
               (as_c_string msg)]
      | Some (None, _) => [Logged ERROR "Client connection is closed already."]
      | None => []
      end
  | SyncReplyToJS reply =>
      match send_sync_reply_callback_ instance with
      | Some invocation => [ReturnValue invocation (as_c_string reply)]
      | None => []
      end
  end.

(** The instance after one call of the native code back into it: a reply
    uses up the reply sink. *)
Definition after_outcall (instance : ExtensionInstance) (c : Outcall)
    : ExtensionInstance :=
  match c with
  | PostMessageToJS _ => instance
  | SyncReplyToJS _ => clear_sink instance
  end.

(** What a run of such calls puts on the trace, and the instance after it. *)
Fixpoint outcalls_events (env : Platform) (instance : ExtensionInstance)
    (cs : list Outcall) : list Event :=
  match cs with
  | [] => []
  | c :: cs =>
      outcall_events env instance c
        ++ outcalls_events env (after_outcall instance c) cs
  end.

Fixpoint outcalls_instance (instance : ExtensionInstance) (cs : list Outcall)
    : ExtensionInstance :=
  match cs with
  | [] => instance
  | c :: cs => outcalls_instance (after_outcall instance c) cs
  end.

(** The three ways [RegisterExtension] can go: the library does not load, the
    module is turned away, or it is accepted. *)
Inductive admission (env : Platform) (path : string) (st st' : State)
    : Prop :=
| not_loaded :
    Initialize env path = None → st' = st → admission env path st st'
| turned_away (i : ModuleInfo) (text : string) :
    Initialize env path = Some i →
    (info_name i ∈ extension_symbols_ st
      ∨ (∃ ep, ep ∈ info_entry_points i ∧ ep ∈ extension_symbols_ st)) →
    st' = LOGGER WARN text st → admission env path st st'
| accepted (i : ModuleInfo) :
    Initialize env path = Some i →
    info_name i ∉ extension_symbols_ st →
    (∀ ep, ep ∈ info_entry_points i → ep ∉ extension_symbols_ st) →
    extensions_ st' =
      <[info_name i := {| library_path_ := path; info := i |}]>
        (extensions_ st) →
    extension_symbols_ st' =
      {[info_name i]} ∪ list_to_set (info_entry_points i)
        ∪ extension_symbols_ st →
    instances_ st' = instances_ st →
    uuids_drawn st' = uuids_drawn st →
    trace st' = trace st ++ [Logged DEBUG (info_name i +:+ " is registered.")] →
    admission env path st st'.

(** The state after a run of outside effects that leaves the tables alone. *)
Definition emit_all (es : list Event) (st : State) : State :=
  {| app_uuid_ := app_uuid_ st; extensions_ := extensions_ st;
     extension_symbols_ := extension_symbols_ st;
     instances_ := instances_ st; uuids_drawn := uuids_drawn st;
     trace := trace st ++ es |}.

(** An id that the generator has handed out and that is not live. *)
Definition retired (env : Platform) (instance_id : string) (st : State)
    : Prop :=
  instances_ st !! instance_id = None
  ∧ ∃ k, k < uuids_drawn st ∧ uuid_source env k = instance_id.

(** One module, [echo], in the system directory, and a caller-supplied
    library that carries the same name. *)
Definition echo_platform : Platform :=
  platform_of true
    ["/usr/lib/tizen-extensions-crosswalk/libecho.so"]
    [("/usr/lib/tizen-extensions-crosswalk/libecho.so",
      module "echo" ["echo.ping"]);
     ("/opt/app/libecho.so", module "echo" ["echo.other"]);
     ("/opt/app/libmute.so", barren_module "mute")].

(** The server after [Start], and after one instance of [echo] has been
    created on it for the caller at invocation 1. *)
Definition echo_server : State :=
  (Start echo_platform ["/opt/app/libmute.so"] (new_ExtensionServer "app")).2.

Definition echo_live : State :=
  OnCreateInstance echo_platform (Some 0) "echo" 1 echo_server.

(** The instance that [echo_live] holds under the id ["id"]. *)
Definition echo_instance : ExtensionInstance :=
  {| extension_ := "echo"; logic := pong_logic; received := [];
     post_message_callback_ := Some (Some 0, "id");
     send_sync_reply_callback_ := None |}.

(** Two system libraries, in the order [glob] lists them, that claim the same
    entry point, the second of them named [second], and a caller-supplied
    library also named [second]. *)
Definition clash_platform : Platform :=
  platform_of true
    ["/usr/lib/tizen-extensions-crosswalk/libfirst.so";
     "/usr/lib/tizen-extensions-crosswalk/libsecond.so"]
    [("/usr/lib/tizen-extensions-crosswalk/libfirst.so",
      module "first" ["x"]);
     ("/usr/lib/tizen-extensions-crosswalk/libsecond.so",
      module "second" ["x"]);
     ("/opt/app/libsecond.so", module "second" [])].

(** A platform whose application bus cannot be reached. *)
Definition offline_platform : Platform :=
  platform_of false
    ["/usr/lib/tizen-extensions-crosswalk/libecho.so"]
    [("/usr/lib/tizen-extensions-crosswalk/libecho.so",
      module "echo" ["echo.ping"])].

(** A library whose entry points repeat its own name and one another. *)
Definition dup_platform : Platform :=
  platform_of true []
    [("/opt/app/liba.so", module "a" ["a"; "b"; "b"]);
     ("/opt/app/libb.so", module "c" ["b"])].

(** ** The rest of the server *)

(** [ExtensionServer::Start()], the overload without caller paths. *)
Definition Start_no_paths (env : Platform) (st : State) : bool * State :=
  Start env [] st.

(** The order in which a [std::map] keyed by [std::string] is walked:
    ascending keys, strings compared byte by byte. *)
Definition key_le (a b : string * Extension) : Prop := (a.1 ≤ b.1)%string.

(** [ExtensionServer::OnGetExtensions]: the array of
    (name, javascript_api, entry_points) that is returned on the invocation,
    one element per entry of [extensions_] in the order the map is walked,
    each string added through [c_str()].  The members of the server are only
    read. *)
Definition OnGetExtensions (st : State)
    : list (string * string * list string) :=
  let built :=
    (λ kv : string * Extension,
       (as_c_string (name kv.2), as_c_string (javascript_api kv.2),
        as_c_string <$> entry_points kv.2))
      <$> merge_sort key_le (map_to_list (extensions_ st)) in
  if decide (size (extensions_ st) = 0) then [] else built.

(** The bytes of a C string: those before the first NUL. *)
Fixpoint c_str (bytes : list Ascii.ascii) : list Ascii.ascii :=
  match bytes with
  | [] => []
  | b :: rest => if decide (b = Ascii.zero) then [] else b :: c_str rest
  end.

(** [strncpy(dest, src, n)] on the bytes of [dest]: the first [n] bytes become
    the bytes of the C string [src], cut at [n] or padded with NUL up to [n];
    the bytes from [n] on stay.  C defines it for [n] within [dest] only. *)
Definition strncpy (dest : list Ascii.ascii) (src : list Ascii.ascii) (n : nat)
    : list Ascii.ascii :=
  take n (c_str src ++ replicate n Ascii.zero) ++ drop n dest.

(** [ExtensionServer::GetRuntimeVariable]: [application] is what the
    Application answers to the call for a key ([None] when the call fails),
    [value] the bytes of the caller's buffer. *)
Definition GetRuntimeVariable (env : Platform)
    (kMethodGetRuntimeVariable : string)
    (application : string → option string)
    (key : string) (value : list Ascii.ascii) (value_len : nat) (st : State)
    : list Ascii.ascii * State :=
  let st :=
    emit (ClientCall (kDBusInterfaceNameForApplication env)
            kMethodGetRuntimeVariable key) st in
  match application key with
  | None =>
      (value,
       LOGGER ERROR
         ("Failed to get runtime variable from Application. (" +:+ key
            +:+ ")") st)
  | Some v => (strncpy value (String.list_ascii_of_string v) value_len, st)
  end.

(** [ExtensionServer::StartExtensionProcess]: [arguments] are the arguments
    of the command line, [inbound] the calls the main loop hands to
    [HandleDBusMethod] before a termination signal makes it quit.  The
    result is the return value and everything the process did to the
    outside.  The server is a local object whose destructor is empty. *)
Definition StartExtensionProcess (env : Platform) (arguments : list string)
    (inbound : list (Connection * MethodCall * Invocation))
    : bool * list Event :=
  match arguments with
  | [] => (false, [Logged ERROR "uuid is required."])
  | uuid :: _ =>
      let '(ok, st) := Start_no_paths env (new_ExtensionServer uuid) in
      if negb ok then
        (false,
         trace (LOGGER ERROR "Failed to start extension server." st))
      else
        let st := LOGGER INFO "extension process has been started." st in
        let st := serve env inbound st in
        let st := LOGGER INFO "extension process is exiting." st in
        (true, trace st)
  end.

(** The signals among a run of events, as (instance id, message). *)
Definition signals (es : list Event) : list (string * string) :=
  es ≫= λ e,
    match e with
    | SendSignal _ _ _ instance_id msg => [(instance_id, msg)]
    | _ => []
    end.

(** The signals among a run of events, whole. *)
Definition sent (es : list Event) : list Event :=
  es ≫= λ e,
    match e with
    | SendSignal _ _ _ _ _ => [e]
    | _ => []
    end.

(** The answers given on one invocation among a run of events. *)
Definition answers (invocation : Invocation) (es : list Event) : list Event :=
  es ≫= λ e,
    match e with
    | ReturnValue i _ | ReturnError i _ =>
        if decide (i = invocation) then [e] else []
    | _ => []
    end.

(** The messages the native code of an instance posts, in order. *)
Definition posts (cs : list Outcall) : list string :=
  cs ≫= λ c, match c with PostMessageToJS msg => [msg] | _ => [] end.

(** How many of the calls are [CreateInstance]. *)
Definition creations (calls : list (Connection * MethodCall * Invocation))
    : nat :=
  length (calls ≫= λ c : Connection * MethodCall * Invocation,
            match c.1.2 with
            | kMethodCreateInstance _ => [c]
            | _ => []
            end).

(** The identifiers a module claims. *)
Definition identifiers (ext : Extension) : gset string :=
  {[name ext]} ∪ list_to_set (entry_points ext).

(** The registry holds nothing it does not need: every symbol belongs to a
    registered module, and different registered modules have no entry point
    in common. *)
Record registry_tight (st : State) : Prop := {
  tight_symbols : ∀ x, x ∈ extension_symbols_ st →
    ∃ k ext, extensions_ st !! k = Some ext ∧ x ∈ identifiers ext;
  tight_entries : ∀ k1 k2 e1 e2 ep, extensions_ st !! k1 = Some e1 →
    extensions_ st !! k2 = Some e2 → e1 ≠ e2 →
    ep ∈ entry_points e1 → ep ∉ entry_points e2
}.

(** Where the library of a registered module was found: in the listing of
    the system directory, or among the caller's paths that exist. *)
Definition discovered (env : Platform) (paths : list string) (path : string)
    : Prop :=
  path ∈ glob env (EXTENSION_PATH env +:+ "/" +:+ kExtensionPrefix +:+ "*"
                     +:+ kExtensionSuffix)
  ∨ (path ∈ paths ∧ Exists env path = true).

(** [st'] is [st] after nothing but log lines and changes to the registry. *)
Definition registered_more (st st' : State) : Prop :=
  app_uuid_ st' = app_uuid_ st
  ∧ instances_ st' = instances_ st
  ∧ uuids_drawn st' = uuids_drawn st
  ∧ ∃ logs, Forall (λ e, ∃ level text, e = Logged level text) logs
            ∧ trace st' = trace st ++ logs.

(** The messages that a run of calls addresses to one instance, with the
    entry point each is meant for. *)
Definition addressed (instance_id : string)
    (calls : list (Connection * MethodCall * Invocation))
    : list (Delivery * string) :=
  calls ≫= λ c : Connection * MethodCall * Invocation,
    match c.1.2 with
    | kMethodPostMessage target msg =>
        if decide (target = instance_id) then [(ToHandleMessage, msg)] else []
    | kMethodSendSyncMessage target msg =>
        if decide (target = instance_id) then [(ToHandleSyncMessage, msg)]
        else []
    | _ => []
    end.

(** A module whose instances push two messages when the first message they
    are handed is a posted one, never reply at once to a synchronous
    message, and reply ["late"] when a message is posted after that. *)
Definition slow_logic : InstanceLogic :=
  {| handle_msg := λ history _,
       match history with
       | [] => [PostMessageToJS "m1"; PostMessageToJS "m2"]
       | _ => [SyncReplyToJS "late"]
       end;
     handle_sync_msg := λ _ _, [] |}.

Definition slow_platform : Platform :=
  platform_of true
    ["/usr/lib/tizen-extensions-crosswalk/libslow.so"]
    [("/usr/lib/tizen-extensions-crosswalk/libslow.so",
      {| info_name := "slow"; info_javascript_api := "";
         info_entry_points := ["slow.wait"];
         info_factory := Some slow_logic |})].

Definition slow_server : State :=
  (Start slow_platform [] (new_ExtensionServer "app")).2.

(** The instance of [slow] that a [CreateInstance] on [slow_server] makes for
    a caller on the given connection. *)
Definition slow_instance (connection : Connection) : ExtensionInstance :=
  {| extension_ := "slow"; logic := slow_logic; received := [];
     post_message_callback_ := Some (connection, "id");
     send_sync_reply_callback_ := None |}.

(** * Properties *)

(** ** The symbol set *)

Lemma insert_all_union (eps : list string) (symbols : gset string) :
  insert_all eps symbols = list_to_set eps ∪ symbols.
Proof.
  unfold insert_all. revert symbols.
  induction eps as [|ep eps IH]; intros symbols; simpl.
  - set_solver.
  - rewrite IH. set_solver.
Qed.

Lemma first_registered_None (symbols : gset string) (eps : list string) :
  first_registered symbols eps = None ↔ ∀ ep, ep ∈ eps → ep ∉ symbols.
Proof.
  induction eps as [|ep eps IH]; simpl.
  - split; [intros _ ep H; inversion H | done].
  - destruct (decide (ep ∈ symbols)) as [Hin|Hout].
    + split; [done|]. intros H. exfalso. apply (H ep); [left | done].
    + rewrite IH. split.
      * intros H x Hx. apply elem_of_cons in Hx as [->|Hx]; auto.
      * intros H x Hx. apply H. by right.
Qed.

Lemma first_registered_Some (symbols : gset string) (eps : list string)
    (ep : string) :
  first_registered symbols eps = Some ep → ep ∈ eps ∧ ep ∈ symbols.
Proof.
  induction eps as [|x eps IH]; simpl; [done|].
  destruct (decide (x ∈ symbols)) as [Hin|Hout].
  - intros [= <-]. split; [left | done].
  - intros H. destruct (IH H). split; [by right | done].
Qed.

Lemma RegisterSymbols_rejects (ext : Extension) (st : State) :
  (name ext ∈ extension_symbols_ st
    ∨ (∃ ep, ep ∈ entry_points ext ∧ ep ∈ extension_symbols_ st)) →
  ∃ text, RegisterSymbols ext st = (false, LOGGER WARN text st).
Proof.
  intros H. unfold RegisterSymbols.
  destruct (decide (name ext ∈ extension_symbols_ st)); [eauto|].
  destruct (first_registered _ _) as [ep|] eqn:E; [eauto|].
  destruct H as [H|(ep & Hep & Hin)]; [done|].
  rewrite first_registered_None in E. by destruct (E ep Hep).
Qed.

Lemma RegisterSymbols_accepts (ext : Extension) (st : State) :
  name ext ∉ extension_symbols_ st →
  (∀ ep, ep ∈ entry_points ext → ep ∉ extension_symbols_ st) →
  ∃ st', RegisterSymbols ext st = (true, st')
    ∧ extensions_ st' = extensions_ st
    ∧ instances_ st' = instances_ st
    ∧ uuids_drawn st' = uuids_drawn st
    ∧ trace st' = trace st
    ∧ extension_symbols_ st' =
        {[name ext]} ∪ list_to_set (entry_points ext) ∪ extension_symbols_ st.
Proof.
  intros Hname Heps. unfold RegisterSymbols.
  destruct (decide (name ext ∈ extension_symbols_ st)); [done|].
  apply first_registered_None in Heps. rewrite Heps.
  eexists. split; [done|]. simpl. rewrite insert_all_union.
  repeat split. set_solver.
Qed.

Lemma RegisterSymbols_true (ext : Extension) (st st' : State) :
  RegisterSymbols ext st = (true, st') →
  name ext ∉ extension_symbols_ st
    ∧ (∀ ep, ep ∈ entry_points ext → ep ∉ extension_symbols_ st).
Proof.
  unfold RegisterSymbols.
  destruct (decide (name ext ∈ extension_symbols_ st)); [done|].
  destruct (first_registered _ _) as [ep|] eqn:E; [done|].
  intros _. split; [done|]. by apply first_registered_None.
Qed.

(** ** Admission *)

Section Registry.

Variable env : Platform.

Lemma RegisterExtension_admission (path : string) (st : State) :
  admission env path st (RegisterExtension env path st).
Proof.
  unfold RegisterExtension.
  destruct (Initialize env path) as [i|] eqn:Hi; [|by apply not_loaded].
  set (ext := {| library_path_ := path; info := i |}).
  destruct (RegisterSymbols ext st) as [ok st'] eqn:Hreg.
  destruct ok.
  - pose proof (RegisterSymbols_true _ _ _ Hreg) as [Hname Heps].
    destruct (RegisterSymbols_accepts ext st Hname Heps)
      as (st'' & Heq & Hexts & Hinst & Hids & Htr & Hsyms).
    rewrite Hreg in Heq. injection Heq as <-.
    unfold name, entry_points in *. simpl in *.
    apply (accepted _ _ _ _ i); simpl; try done; try congruence.
    by rewrite Hexts.
  - destruct (decide (name ext ∈ extension_symbols_ st)) as [Hin|Hout].
    + destruct (RegisterSymbols_rejects ext st (or_introl Hin)) as [text Heq].
      rewrite Hreg in Heq. injection Heq as ->.
      apply (turned_away _ _ _ _ i text); auto.
    + destruct (first_registered (extension_symbols_ st) (entry_points ext))
        as [ep|] eqn:E.
      * apply first_registered_Some in E as [Hep Hin].
        assert (Hcol : name ext ∈ extension_symbols_ st
          ∨ (∃ ep, ep ∈ entry_points ext ∧ ep ∈ extension_symbols_ st))
          by eauto.
        destruct (RegisterSymbols_rejects ext st Hcol) as [text Heq].
        rewrite Hreg in Heq. injection Heq as ->.
        apply (turned_away _ _ _ _ i text); auto.
      * rewrite first_registered_None in E.
        destruct (RegisterSymbols_accepts ext st Hout E) as (? & Heq & _).
        congruence.
Qed.

Lemma admission_keeps_ok (path : string) (st st' : State) :
  admission env path st st' → registry_ok env st → registry_ok env st'.
Proof.
  intros [Hi ->|i text Hi Hcol ->|i Hi Hname Heps Hexts Hsyms _ _ _] Hok;
    [done|by destruct Hok|].
  set (ext := {| library_path_ := path; info := i |}) in *.
  destruct Hok as [Hkey Hload Hnm Hep Hapart].
  assert (Hold : ∀ k e, extensions_ st !! k = Some e → k ≠ info_name i).
  { intros k e He ->. apply Hname. rewrite <- (Hkey _ _ He) at 1. eauto. }
  assert (Hlook : ∀ k e, extensions_ st' !! k = Some e →
            (k = info_name i ∧ e = ext)
              ∨ (k ≠ info_name i ∧ extensions_ st !! k = Some e)).
  { intros k e. rewrite Hexts, lookup_insert.
    case_decide; [intros [= <-]; auto | intros He; right; eauto]. }
  split.
  - intros k e He. destruct (Hlook _ _ He) as [[-> ->]|[_ He']]; eauto.
  - intros k e He. destruct (Hlook _ _ He) as [[-> ->]|[_ He']]; eauto.
  - intros k e He. rewrite Hsyms.
    destruct (Hlook _ _ He) as [[-> ->]|[_ He']].
    + unfold name; simpl. set_solver.
    + specialize (Hnm _ _ He'). set_solver.
  - intros k e ep He Hin. rewrite Hsyms.
    destruct (Hlook _ _ He) as [[-> ->]|[_ He']].
    + unfold entry_points in Hin; simpl in Hin. set_solver.
    + specialize (Hep _ _ _ He' Hin). set_solver.
  - intros k1 k2 e1 e2 H1 H2 Hne.
    destruct (Hlook _ _ H1) as [[-> ->]|[_ H1']];
      destruct (Hlook _ _ H2) as [[-> ->]|[_ H2']].
    + done.
    + split.
      * intros Heq. apply Hname. unfold name in Heq; simpl in Heq.
        rewrite Heq. eauto.
      * intros Hin. apply Hname. eapply Hep; eauto.
    + split.
      * intros Heq. apply Hname. unfold name in Heq; simpl in Heq.
        rewrite <- Heq. eauto.
      * intros Hin. apply (Heps (name e1)); [done | eauto].
    + eauto.
Qed.

Lemma RegisterExtension_ok (path : string) (st : State) :
  registry_ok env st → registry_ok env (RegisterExtension env path st).
Proof.
  intros Hok. eapply admission_keeps_ok; [|exact Hok].
  apply RegisterExtension_admission.
Qed.

Lemma new_ExtensionServer_ok (uuid : string) :
  registry_ok env (new_ExtensionServer uuid).
Proof. split; simpl; intros *; by rewrite lookup_empty. Qed.

(** A module that has been accepted is never displaced by a later
    admission. *)
Lemma RegisterExtension_keeps (path : string) (st : State) (k : string)
    (ext : Extension) :
  registry_ok env st → extensions_ st !! k = Some ext →
  extensions_ (RegisterExtension env path st) !! k = Some ext.
Proof.
  intros Hok Hk.
  destruct (RegisterExtension_admission path st)
    as [_ ->|i text _ _ ->|i _ Hname _ Hexts _ _ _ _]; [done..|].
  rewrite Hexts, lookup_insert_ne; [done|].
  intros <-. apply Hname. rewrite <- (ok_key _ _ Hok _ _ Hk) at 1.
  eapply ok_name; eauto.
Qed.

Lemma RegisterExtension_frame (path : string) (st : State) :
  instances_ (RegisterExtension env path st) = instances_ st
    ∧ uuids_drawn (RegisterExtension env path st) = uuids_drawn st
    ∧ app_uuid_ (RegisterExtension env path st) = app_uuid_ st.
Proof.
  unfold RegisterExtension. destruct (Initialize env path); [|done].
  unfold RegisterSymbols.
  repeat (case_decide || case_match || simplify_eq /=); done.
Qed.

Lemma register_each_ok (paths : list string) (st : State) :
  registry_ok env st → registry_ok env (foldl (λ st path, RegisterExtension env path st) st paths).
Proof.
  revert st. induction paths as [|p paths IH]; intros st Hok; [done|].
  apply IH, RegisterExtension_ok, Hok.
Qed.

Lemma register_each_keeps (paths : list string) (st : State) (k : string)
    (ext : Extension) :
  registry_ok env st → extensions_ st !! k = Some ext →
  extensions_ (foldl (λ st path, RegisterExtension env path st) st paths)
    !! k = Some ext.
Proof.
  revert st. induction paths as [|p paths IH]; intros st Hok Hk; [done|].
  apply IH; [by apply RegisterExtension_ok | by apply RegisterExtension_keeps].
Qed.

Lemma register_existing_ok (paths : list string) (st : State) :
  registry_ok env st → registry_ok env
    (foldl (λ st path, if Exists env path then RegisterExtension env path st
                      else st) st paths).
Proof.
  revert st. induction paths as [|p paths IH]; intros st Hok; [done|].
  apply IH. simpl. destruct (Exists env p); [|done].
  by apply RegisterExtension_ok.
Qed.

Lemma register_existing_keeps (paths : list string) (st : State) (k : string)
    (ext : Extension) :
  registry_ok env st → extensions_ st !! k = Some ext →
  extensions_
    (foldl (λ st path, if Exists env path then RegisterExtension env path st
                      else st) st paths)
    !! k = Some ext.
Proof.
  revert st. induction paths as [|p paths IH]; intros st Hok Hk; [done|].
  simpl. destruct (Exists env p) eqn:E; apply IH; try done.
  - by apply RegisterExtension_ok.
  - by apply RegisterExtension_keeps.
Qed.

End Registry.

(** C1. Whatever sequence of libraries is put through [RegisterExtension]
    from a new server, two different modules of the resulting table never
    have the same name, and the name of one is never an entry point of the
    other; and a module whose name or one of whose entry points is already
    in the symbol set is turned away with the module table and the symbol
    set exactly as they were. *)
Theorem admission_atomic_and_unique (env : Platform) :
  (∀ (uuid : string) (paths : list string) (k1 k2 : string)
     (e1 e2 : Extension),
     let st := foldl (λ st path, RegisterExtension env path st)
                 (new_ExtensionServer uuid) paths in
     extensions_ st !! k1 = Some e1 → extensions_ st !! k2 = Some e2 →
     e1 ≠ e2 →
     name e1 ≠ name e2 ∧ name e1 ∉ entry_points e2)
  ∧ (∀ (st : State) (path : string) (i : ModuleInfo),
       Initialize env path = Some i →
       (info_name i ∈ extension_symbols_ st
          ∨ (∃ ep, ep ∈ info_entry_points i ∧ ep ∈ extension_symbols_ st)) →
       extensions_ (RegisterExtension env path st) = extensions_ st
         ∧ extension_symbols_ (RegisterExtension env path st)
             = extension_symbols_ st).
Proof.
  split.
  - intros uuid paths k1 k2 e1 e2 st H1 H2 Hne.
    assert (Hok : registry_ok env st)
      by apply register_each_ok, new_ExtensionServer_ok.
    eapply ok_apart; eauto.
  - intros st path i Hi Hcol.
    destruct (RegisterExtension_admission env path st)
      as [_ ->|i' text _ _ ->|i' Hi' Hname Heps _ _ _ _ _]; [done..|].
    exfalso. assert (i' = i) as -> by congruence.
    destruct Hcol as [Hin|(ep & Hep & Hin)]; [done|]. by apply (Heps ep).
Qed.

(** C10. A loaded module whose name and entry points are all absent from the
    symbol set is accepted, whether or not its entry points repeat its own
    name or one another; the symbol set gains each of its identifiers once. *)
Theorem admission_checks_only_earlier_modules (env : Platform)
    (path : string) (i : ModuleInfo) (st : State) :
  Initialize env path = Some i →
  info_name i ∉ extension_symbols_ st →
  (∀ ep, ep ∈ info_entry_points i → ep ∉ extension_symbols_ st) →
  let st' := RegisterExtension env path st in
  extensions_ st' =
    <[info_name i := {| library_path_ := path; info := i |}]> (extensions_ st)
  ∧ extension_symbols_ st' =
      {[info_name i]} ∪ list_to_set (info_entry_points i)
        ∪ extension_symbols_ st
  ∧ size (extension_symbols_ st') =
      size (list_to_set (info_name i :: info_entry_points i) : gset string)
        + size (extension_symbols_ st).
Proof.
  intros Hi Hname Heps st'.
  destruct (RegisterExtension_admission env path st)
    as [Hn _|i' text Hi' Hcol _|i' Hi' _ _ Hexts Hsyms _ _ _].
  - congruence.
  - assert (i' = i) as -> by congruence.
    destruct Hcol as [Hin|(ep & Hep & Hin)]; [done|]. by destruct (Heps ep).
  - assert (i' = i) as -> by congruence.
    fold st' in Hexts, Hsyms. split; [done|]. split; [done|].
    rewrite Hsyms.
    replace ({[info_name i]} ∪ list_to_set (info_entry_points i)
               ∪ extension_symbols_ st)
      with ((list_to_set (info_name i :: info_entry_points i) : gset string)
              ∪ extension_symbols_ st) by set_solver.
    apply size_union. set_solver.
Qed.

(** C9. [Start] returns [false] exactly when the connection to the
    application's bus name fails; then the module table and the symbol set
    are untouched and the only effect is the error log.  When the connection
    succeeds [Start] returns [true] and starts the bus server, whatever the
    loader and the admissions did. *)
Theorem Start_fails_iff_connection_fails (env : Platform)
    (paths : list string) (st : State) :
  let connected :=
    ConnectByName env (app_uuid_ st +:+ "." +:+ kDBusNameForApplication env) in
  ((Start env paths st).1 = false ↔ connected = false)
  ∧ (connected = false →
       extensions_ (Start env paths st).2 = extensions_ st
       ∧ extension_symbols_ (Start env paths st).2 = extension_symbols_ st
       ∧ instances_ (Start env paths st).2 = instances_ st
       ∧ trace (Start env paths st).2 =
           trace st ++
             [Logged ERROR
                "Failed to connect to the dbus server for Application."])
  ∧ (connected = true →
       (Start env paths st).1 = true
       ∧ ∃ bus_name, ServerStart bus_name ∈ trace (Start env paths st).2).
Proof.
  intros connected. unfold Start. fold connected.
  destruct connected; simpl.
  - split; [split; done|]. split; [done|]. intros _. split; [done|].
    eexists. rewrite !elem_of_app. left. right. left.
  - split; [split; done|]. split; [done|]. done.
Qed.

(** ** Discovery *)

Lemma RegisterExtension_origin (env : Platform) (path : string) (st : State)
    (k : string) (e : Extension) :
  extensions_ (RegisterExtension env path st) !! k = Some e →
  extensions_ st !! k = Some e ∨ library_path_ e = path.
Proof.
  destruct (RegisterExtension_admission env path st)
    as [_ ->|i text _ _ ->|i _ _ _ Hexts _ _ _ _]; [auto..|].
  rewrite Hexts, lookup_insert. case_decide; [|auto].
  intros [= <-]. by right.
Qed.

Lemma register_each_origin (env : Platform) (paths : list string)
    (st : State) (k : string) (e : Extension) :
  extensions_ (foldl (λ st path, RegisterExtension env path st) st paths)
    !! k = Some e →
  extensions_ st !! k = Some e ∨ library_path_ e ∈ paths.
Proof.
  revert st. induction paths as [|p paths IH]; intros st; simpl; [auto|].
  intros H. destruct (IH _ H) as [H'|H']; [|right; by right].
  destruct (RegisterExtension_origin _ _ _ _ _ H') as [?| ->]; [auto|].
  right. left.
Qed.

(** C5, as the code has it. When the connection succeeds and a module from the
    system directory has been accepted under a name, that module is still
    the one registered under the name after [Start] has gone through the
    caller's paths, and no library from one of those paths that carries the
    same name is in the table. *)
Theorem system_extension_precedence (env : Platform) (uuid : string)
    (paths : list string) (A : string) (s : Extension) :
  ConnectByName env (uuid +:+ "." +:+ kDBusNameForApplication env) = true →
  extensions_ (RegisterSystemExtensions env (new_ExtensionServer uuid)) !! A
    = Some s →
  let st := (Start env paths (new_ExtensionServer uuid)).2 in
  library_path_ s ∈
    glob env (EXTENSION_PATH env +:+ "/" +:+ kExtensionPrefix +:+ "*"
                +:+ kExtensionSuffix)
  ∧ extensions_ st !! A = Some s
  ∧ ∀ q i, q ∈ paths → Initialize env q = Some i → info_name i = A →
      q ≠ library_path_ s →
      ∀ k e, extensions_ st !! k = Some e → library_path_ e ≠ q.
Proof.
  intros Hconn Hsys st.
  assert (Hok1 : registry_ok env
            (RegisterSystemExtensions env (new_ExtensionServer uuid)))
    by apply register_each_ok, new_ExtensionServer_ok.
  assert (Hexts : extensions_ st =
    extensions_
      (foldl (λ st path, if Exists env path then RegisterExtension env path st
                         else st)
         (RegisterSystemExtensions env (new_ExtensionServer uuid)) paths)).
  { unfold st, Start. simpl app_uuid_. by rewrite Hconn. }
  assert (Hok : registry_ok env
    (foldl (λ st path, if Exists env path then RegisterExtension env path st
                       else st)
       (RegisterSystemExtensions env (new_ExtensionServer uuid)) paths))
    by by apply register_existing_ok.
  assert (HA : extensions_ st !! A = Some s).
  { rewrite Hexts. by apply register_existing_keeps. }
  split; [|split; [done|]].
  - destruct (register_each_origin _ _ _ _ _ Hsys) as [H|H]; [|done].
    simpl in H. by rewrite lookup_empty in H.
  - intros q i Hq Hi Hname Hne k e He Hpath.
    rewrite Hexts in He, HA.
    pose proof (ok_loaded _ _ Hok _ _ He) as Hload.
    pose proof (ok_key _ _ Hok _ _ He) as Hkey.
    rewrite Hpath, Hi in Hload. injection Hload as Hinfo.
    assert (k = A) as -> by (rewrite <- Hkey; unfold name; by rewrite <- Hinfo).
    apply Hne. rewrite <- Hpath. congruence.
Qed.

(** ** Callbacks of an instance *)

Lemma emit_all_nil (st : State) : emit_all [] st = st.
Proof. destruct st. unfold emit_all; simpl. by rewrite app_nil_r. Qed.

Lemma emit_all_app (es es' : list Event) (st : State) :
  emit_all es' (emit_all es st) = emit_all (es ++ es') st.
Proof. unfold emit_all; simpl. by rewrite app_assoc. Qed.

Lemma set_instances_emit_all
    (f : gmap string ExtensionInstance → gmap string ExtensionInstance)
    (es : list Event) (st : State) :
  emit_all es (set_instances f st) = set_instances f (emit_all es st).
Proof. done. Qed.

Lemma set_instances_twice (id : string) (a b : ExtensionInstance)
    (st : State) :
  set_instances (<[id := b]>) (set_instances (<[id := a]>) st)
    = set_instances (<[id := b]>) st.
Proof. unfold set_instances; simpl. by rewrite insert_insert_eq. Qed.

Lemma clear_sink_idle (instance : ExtensionInstance) :
  send_sync_reply_callback_ instance = None → clear_sink instance = instance.
Proof. destruct instance; simpl. by intros ->. Qed.

Lemma invoke_events (env : Platform) (id : string)
    (instance : ExtensionInstance) (c : Outcall) (st : State) :
  invoke env id c (set_instances (<[id := instance]>) st)
    = emit_all (outcall_events env instance c)
        (set_instances (<[id := after_outcall instance c]>) st).
Proof.
  unfold invoke. simpl. rewrite lookup_insert_eq.
  destruct c as [msg|reply]; simpl.
  - destruct (post_message_callback_ instance) as [[[conn|] bound]|]; simpl;
      [destruct (g_dbus_connection_is_closed env conn)|..];
      by rewrite ?emit_all_nil.
  - destruct (send_sync_reply_callback_ instance) as [invocation|] eqn:Hsink.
    + unfold SyncReplyCallback.
      change (emit (ReturnValue invocation (as_c_string reply))
                (set_instances (<[id := instance]>) st))
        with (set_instances (<[id := instance]>)
                (emit_all [ReturnValue invocation (as_c_string reply)] st)).
      by rewrite set_instances_twice.
    + by rewrite emit_all_nil, clear_sink_idle.
Qed.

Lemma invoke_all_events (env : Platform) (id : string)
    (instance : ExtensionInstance) (cs : list Outcall) (st : State) :
  invoke_all env id cs (set_instances (<[id := instance]>) st)
    = emit_all (outcalls_events env instance cs)
        (set_instances (<[id := outcalls_instance instance cs]>) st).
Proof.
  unfold invoke_all. revert instance st.
  induction cs as [|c cs IH]; intros instance st; simpl.
  - by rewrite emit_all_nil.
  - rewrite invoke_events, set_instances_emit_all, IH.
    by rewrite <- set_instances_emit_all, emit_all_app.
Qed.

(** What the calls of the native code leave of the instance: all but,
    possibly, the reply sink. *)
Lemma outcalls_instance_keeps (instance : ExtensionInstance)
    (cs : list Outcall) :
  received (outcalls_instance instance cs) = received instance
  ∧ logic (outcalls_instance instance cs) = logic instance
  ∧ post_message_callback_ (outcalls_instance instance cs)
      = post_message_callback_ instance
  ∧ extension_ (outcalls_instance instance cs) = extension_ instance.
Proof.
  revert instance. induction cs as [|c cs IH]; intros instance; [done|].
  simpl. destruct (IH (after_outcall instance c)) as (-> & -> & -> & ->).
  by destruct c.
Qed.

Lemma outcalls_instance_post (instance : ExtensionInstance)
    (cs : list Outcall) :
  post_message_callback_ (outcalls_instance instance cs)
    = post_message_callback_ instance.
Proof. apply outcalls_instance_keeps. Qed.

Lemma outcalls_instance_received (instance : ExtensionInstance)
    (cs : list Outcall) :
  received (outcalls_instance instance cs) = received instance.
Proof. apply outcalls_instance_keeps. Qed.

Lemma outcalls_instance_logic (instance : ExtensionInstance)
    (cs : list Outcall) :
  logic (outcalls_instance instance cs) = logic instance.
Proof. apply outcalls_instance_keeps. Qed.

Lemma outcalls_sink_cleared (instance : ExtensionInstance)
    (cs : list Outcall) (reply : string) :
  SyncReplyToJS reply ∈ cs →
  send_sync_reply_callback_ (outcalls_instance instance cs) = None.
Proof.
  assert (Hnone : ∀ cs' inst, send_sync_reply_callback_ inst = None →
            send_sync_reply_callback_ (outcalls_instance inst cs') = None).
  { induction cs' as [|c cs' IH]; intros inst Hinst; [done|].
    simpl. apply IH. by destruct c. }
  revert instance. induction cs as [|c cs IH]; intros instance Hin.
  - by apply elem_of_nil in Hin.
  - apply elem_of_cons in Hin as [<-|Hin]; simpl; [by apply Hnone|].
    by apply IH.
Qed.

Lemma outcalls_sink_idle (instance : ExtensionInstance) (cs : list Outcall) :
  send_sync_reply_callback_ instance = None →
  send_sync_reply_callback_ (outcalls_instance instance cs) = None.
Proof.
  revert instance. induction cs as [|c cs IH]; intros inst Hinst; [done|].
  simpl. apply IH. by destruct c.
Qed.

Lemma outcalls_sink_pending (instance : ExtensionInstance)
    (cs : list Outcall) :
  (∀ reply, SyncReplyToJS reply ∉ cs) →
  outcalls_instance instance cs = instance.
Proof.
  revert instance. induction cs as [|c cs IH]; intros inst Hno; [done|].
  simpl. destruct c as [msg|reply].
  - apply IH. intros r Hr. apply (Hno r). by right.
  - destruct (Hno reply). left.
Qed.

Lemma outcalls_events_pending (env : Platform)
    (instance : ExtensionInstance) (cs : list Outcall) :
  (∀ reply, SyncReplyToJS reply ∉ cs) →
  outcalls_events env instance cs = cs ≫= outcall_events env instance.
Proof.
  induction cs as [|c cs IH]; intros Hno; [done|].
  rewrite bind_cons. cbn [outcalls_events]. destruct c as [msg|reply].
  - simpl after_outcall. rewrite IH; [done|].
    intros r Hr. apply (Hno r). by right.
  - destruct (Hno reply). left.
Qed.

Lemma outcalls_events_kind (env : Platform) (instance : ExtensionInstance)
    (cs : list Outcall) (e : Event) :
  e ∈ outcalls_events env instance cs →
  (∃ level text, e = Logged level text)
  ∨ (∃ conn iface signal id msg, e = SendSignal conn iface signal id msg)
  ∨ (∃ invocation reply, e = ReturnValue invocation reply).
Proof.
  revert instance. induction cs as [|c cs IH]; intros instance; simpl.
  { by intros ?%elem_of_nil. }
  intros [Hin|Hin]%elem_of_app; [|by eapply IH].
  destruct c as [msg|reply]; simpl in Hin.
  - destruct (post_message_callback_ instance) as [[[conn|] id]|];
      [destruct (g_dbus_connection_is_closed env conn)|..].
    + apply list_elem_of_singleton in Hin as ->. left. eauto.
    + apply list_elem_of_singleton in Hin as ->. right. left. eauto 10.
    + apply list_elem_of_singleton in Hin as ->. left. eauto.
    + by apply elem_of_nil in Hin.
  - destruct (send_sync_reply_callback_ instance).
    + apply list_elem_of_singleton in Hin as ->. right. right. eauto.
    + by apply elem_of_nil in Hin.
Qed.

(** ** The handlers *)

Lemma OnDestroyInstance_absent (instance_id : string)
    (invocation : Invocation) (st : State) :
  instances_ st !! instance_id = None →
  OnDestroyInstance instance_id invocation st =
    emit_all
      [Logged ERROR ("Failed to find instance '" +:+ instance_id +:+ "'");
       ReturnError invocation ("Not found instance " +:+ instance_id)]
      st.
Proof.
  unfold OnDestroyInstance. intros ->.
  unfold emit_all, emit, LOGGER; simpl. by rewrite <- app_assoc.
Qed.

Lemma OnSendSyncMessage_absent (env : Platform) (instance_id msg : string)
    (invocation : Invocation) (st : State) :
  instances_ st !! instance_id = None →
  OnSendSyncMessage env instance_id msg invocation st =
    emit_all
      [Logged ERROR ("Failed to find instance '" +:+ instance_id +:+ "'");
       ReturnError invocation ("Not found instance " +:+ instance_id)]
      st.
Proof.
  unfold OnSendSyncMessage. intros ->.
  unfold emit_all, emit, LOGGER; simpl. by rewrite <- app_assoc.
Qed.

Lemma OnPostMessage_absent (env : Platform) (instance_id msg : string)
    (st : State) :
  instances_ st !! instance_id = None →
  OnPostMessage env instance_id msg st =
    emit_all
      [Logged ERROR ("Failed to find instance '" +:+ instance_id +:+ "'")]
      st.
Proof. unfold OnPostMessage. by intros ->. Qed.

(** C6. [OnDestroyInstance] on an id that is in the table deletes the
    instance object, erases the id from the table and returns the id on the
    invocation; on an id that is not in the table it logs, returns the error
    "Not found instance" and changes nothing else. *)
Theorem DestroyInstance_confirms_or_not_found (instance_id : string)
    (invocation : Invocation) (st : State) :
  (∀ instance, instances_ st !! instance_id = Some instance →
     OnDestroyInstance instance_id invocation st =
       emit_all [DeleteInstance instance_id;
                 ReturnValue invocation instance_id]
         (set_instances (delete instance_id) st))
  ∧ (instances_ st !! instance_id = None →
       OnDestroyInstance instance_id invocation st =
         emit_all
           [Logged ERROR ("Failed to find instance '" +:+ instance_id +:+ "'");
            ReturnError invocation ("Not found instance " +:+ instance_id)]
           st).
Proof.
  unfold OnDestroyInstance. split.
  - intros instance ->. unfold emit_all, emit, set_instances; simpl.
    by rewrite <- app_assoc.
  - apply OnDestroyInstance_absent.
Qed.

(** C7. [OnPostMessage] for an id that is not in the table only writes a
    log line: nothing is returned on any invocation and the state is
    otherwise the same.  For a live id the message reaches the instance
    through [HandleMessage], and the only effects are those of the calls
    the native handler makes back, one after the other; the handler of the
    call returns nothing to the caller.  When the native handler makes no
    reply, the instance is left as it was but for the message it has been
    handed. *)
Theorem PostMessage_drops_or_delivers (env : Platform)
    (instance_id msg : string) (st : State) :
  (instances_ st !! instance_id = None →
     OnPostMessage env instance_id msg st =
       emit_all
         [Logged ERROR ("Failed to find instance '" +:+ instance_id +:+ "'")]
         st)
  ∧ (∀ instance, instances_ st !! instance_id = Some instance →
       let instance' := deliver ToHandleMessage msg instance in
       let calls := handle_msg (logic instance) (received instance) msg in
       OnPostMessage env instance_id msg st =
         emit_all (outcalls_events env instance' calls)
           (set_instances
              (<[instance_id := outcalls_instance instance' calls]>) st)
       ∧ received (outcalls_instance instance' calls)
           = received instance ++ [(ToHandleMessage, msg)]
       ∧ ((∀ reply, SyncReplyToJS reply ∉ calls) →
          OnPostMessage env instance_id msg st =
            emit_all (calls ≫= outcall_events env instance')
              (set_instances (<[instance_id := instance']>) st))).
Proof.
  split; [apply OnPostMessage_absent|]. unfold OnPostMessage.
  - intros instance Hlive. rewrite Hlive. split; [|split].
    + unfold HandleMessage. by rewrite invoke_all_events.
    + by rewrite outcalls_instance_received.
    + intros Hno. unfold HandleMessage.
      by rewrite invoke_all_events, outcalls_events_pending,
        outcalls_sink_pending.
Qed.

Lemma OnSendSyncMessage_live (env : Platform) (instance_id msg : string)
    (invocation : Invocation) (instance : ExtensionInstance) (st : State) :
  instances_ st !! instance_id = Some instance →
  let instance' :=
    deliver ToHandleSyncMessage msg
      (SetSendSyncReplyCallback invocation instance) in
  let calls := handle_sync_msg (logic instance) (received instance) msg in
  OnSendSyncMessage env instance_id msg invocation st =
    emit_all (outcalls_events env instance' calls)
      (set_instances (<[instance_id := outcalls_instance instance' calls]>)
         st).
Proof.
  intros Hlive. unfold OnSendSyncMessage, HandleSyncMessage.
  rewrite Hlive. simpl. by rewrite invoke_all_events, set_instances_twice.
Qed.

Lemma OnPostMessage_live (env : Platform) (instance_id msg : string)
    (instance : ExtensionInstance) (st : State) :
  instances_ st !! instance_id = Some instance →
  let instance' := deliver ToHandleMessage msg instance in
  let calls := handle_msg (logic instance) (received instance) msg in
  OnPostMessage env instance_id msg st =
    emit_all (outcalls_events env instance' calls)
      (set_instances (<[instance_id := outcalls_instance instance' calls]>)
         st).
Proof.
  intros Hlive. unfold OnPostMessage, HandleMessage.
  rewrite Hlive. by rewrite invoke_all_events.
Qed.

(** C3. [OnSendSyncMessage] on a live instance whose native handler answers
    the message by one call of the reply sink with [reply] puts exactly one
    event on the trace: the return, on the invocation of this very call, of
    [reply] as [c_str()] hands it on, which is [reply] itself, byte for
    byte, when [reply] is a C string (it holds no NUL).  So no signal is
    emitted.  On an id that is not in the table the handler returns the
    error "Not found instance" and changes nothing else. *)
Theorem SendSyncMessage_returns_the_reply (env : Platform)
    (instance_id msg : string) (invocation : Invocation) (st : State) :
  (∀ instance reply,
     instances_ st !! instance_id = Some instance →
     handle_sync_msg (logic instance) (received instance) msg
       = [SyncReplyToJS reply] →
     trace (OnSendSyncMessage env instance_id msg invocation st)
       = trace st ++ [ReturnValue invocation (as_c_string reply)]
     ∧ (as_c_string reply = reply →
        trace (OnSendSyncMessage env instance_id msg invocation st)
          = trace st ++ [ReturnValue invocation reply]))
  ∧ (instances_ st !! instance_id = None →
       OnSendSyncMessage env instance_id msg invocation st =
         emit_all
           [Logged ERROR ("Failed to find instance '" +:+ instance_id +:+ "'");
            ReturnError invocation ("Not found instance " +:+ instance_id)]
           st).
Proof.
  split; [|apply OnSendSyncMessage_absent].
  intros instance reply Hlive Hreply.
  rewrite (OnSendSyncMessage_live env _ _ _ _ _ Hlive), Hreply. simpl.
  split; [done|]. by intros ->.
Qed.

(** The three ways out of [OnCreateInstance], each after the id has been
    drawn. *)
Lemma OnCreateInstance_cases (env : Platform) (connection : Connection)
    (extension_name : string) (invocation : Invocation) (st : State) :
  let instance_id := uuid_source env (uuids_drawn st) in
  let st' := OnCreateInstance env connection extension_name invocation st in
  uuids_drawn st' = S (uuids_drawn st)
  ∧ (extensions_ st !! extension_name = None →
       instances_ st' = instances_ st
       ∧ trace st' = trace st ++
           [Logged ERROR
              ("Failed to find extension '" +:+ extension_name +:+ "'");
            ReturnError invocation
              ("Not found extension " +:+ extension_name)])
  ∧ (∀ ext, extensions_ st !! extension_name = Some ext →
       CreateInstance ext = None →
       instances_ st' = instances_ st
       ∧ trace st' = trace st ++
           [Logged ERROR
              ("Failed to create instance of extension '"
                 +:+ extension_name +:+ "'");
            ReturnError invocation
              ("Failed to create instance of extension "
                 +:+ extension_name)])
  ∧ (∀ ext instance, extensions_ st !! extension_name = Some ext →
       CreateInstance ext = Some instance →
       instances_ st' =
         <[instance_id :=
             SetPostMessageCallback (connection, instance_id) instance]>
           (instances_ st)
       ∧ trace st' =
           trace st ++ [ReturnValue invocation (as_c_string instance_id)]).
Proof.
  intros instance_id st'. subst st'. unfold OnCreateInstance. simpl.
  destruct (extensions_ st !! extension_name) as [ext|] eqn:Hext.
  - destruct (CreateInstance ext) as [instance|] eqn:Hnew; simpl.
    + split; [done|]. split; [done|]. split.
      * intros ? [= <-] ?. congruence.
      * intros ? ? [= <-] H. rewrite Hnew in H. by injection H as <-.
    + split; [done|]. split; [done|]. split.
      * intros ? _ _. by rewrite <- app_assoc.
      * intros ? ? [= <-] ?. congruence.
  - simpl. split; [done|]. split; [|done].
    intros _. by rewrite <- app_assoc.
Qed.

(** C8. The reply sink is on an instance only while a synchronous call
    waits for its reply.  [OnSendSyncMessage] installs it, bound to the
    invocation of the call.  When the native handler replies within the call,
    the reply goes to that invocation and the sink is gone when the handler
    of the call is done; when it does not, the sink stays, and it is gone
    once the native code has replied while handling a later posted message.
    No other handler installs a sink: an instance without one has none after
    any [OnPostMessage], and calls addressed to other instances leave the
    sink as it is. *)
Theorem sync_reply_sink_is_cleared_after_the_reply (env : Platform)
    (instance_id : string) (instance : ExtensionInstance) (st : State) :
  instances_ st !! instance_id = Some instance →
  (∀ msg invocation reply,
     handle_sync_msg (logic instance) (received instance) msg
       = [SyncReplyToJS reply] →
     trace (OnSendSyncMessage env instance_id msg invocation st)
       = trace st ++ [ReturnValue invocation (as_c_string reply)]
     ∧ send_sync_reply_callback_ <$>
         instances_ (OnSendSyncMessage env instance_id msg invocation st)
           !! instance_id
       = Some None)
  ∧ (∀ msg invocation reply,
       SyncReplyToJS reply
         ∈ handle_sync_msg (logic instance) (received instance) msg →
       send_sync_reply_callback_ <$>
         instances_ (OnSendSyncMessage env instance_id msg invocation st)
           !! instance_id
       = Some None)
  ∧ (∀ msg invocation,
       (∀ reply, SyncReplyToJS reply
                   ∉ handle_sync_msg (logic instance) (received instance)
                       msg) →
       send_sync_reply_callback_ <$>
         instances_ (OnSendSyncMessage env instance_id msg invocation st)
           !! instance_id
       = Some (Some invocation))
  ∧ (∀ msg reply,
       SyncReplyToJS reply
         ∈ handle_msg (logic instance) (received instance) msg →
       send_sync_reply_callback_ <$>
         instances_ (OnPostMessage env instance_id msg st) !! instance_id
       = Some None)
  ∧ (∀ other msg,
       send_sync_reply_callback_ instance = None →
       send_sync_reply_callback_ <$>
         instances_ (OnPostMessage env other msg st) !! instance_id
       = Some None)
  ∧ (∀ other msg invocation, other ≠ instance_id →
       send_sync_reply_callback_ <$>
         instances_ (OnSendSyncMessage env other msg invocation st)
           !! instance_id
       = Some (send_sync_reply_callback_ instance))
  ∧ (∀ other invocation, other ≠ instance_id →
       send_sync_reply_callback_ <$>
         instances_ (OnDestroyInstance other invocation st) !! instance_id
       = Some (send_sync_reply_callback_ instance)).
Proof.
  intros Hlive. split; [|split; [|split; [|split; [|split; [|split]]]]].
  - intros msg invocation reply Hreply.
    rewrite (OnSendSyncMessage_live env _ _ _ _ _ Hlive), Hreply. simpl.
    by rewrite lookup_insert_eq.
  - intros msg invocation reply Hin.
    rewrite (OnSendSyncMessage_live env _ _ _ _ _ Hlive). simpl.
    rewrite lookup_insert_eq. simpl. f_equal.
    by eapply outcalls_sink_cleared.
  - intros msg invocation Hno.
    rewrite (OnSendSyncMessage_live env _ _ _ _ _ Hlive). simpl.
    rewrite lookup_insert_eq. simpl. by rewrite outcalls_sink_pending.
  - intros msg reply Hin.
    rewrite (OnPostMessage_live env _ _ _ _ Hlive). simpl.
    rewrite lookup_insert_eq. simpl. f_equal.
    by eapply outcalls_sink_cleared.
  - intros other msg Hidle.
    destruct (decide (other = instance_id)) as [->|Hne].
    + rewrite (OnPostMessage_live env _ _ _ _ Hlive). simpl.
      rewrite lookup_insert_eq. simpl. f_equal.
      by apply outcalls_sink_idle.
    + destruct (instances_ st !! other) as [inst|] eqn:Hother.
      * rewrite (OnPostMessage_live env _ _ _ _ Hother). simpl.
        rewrite lookup_insert_ne, Hlive by done. simpl. by rewrite Hidle.
      * rewrite OnPostMessage_absent by done. simpl.
        rewrite Hlive. simpl. by rewrite Hidle.
  - intros other msg invocation Hne.
    destruct (instances_ st !! other) as [inst|] eqn:Hother.
    + rewrite (OnSendSyncMessage_live env _ _ _ _ _ Hother). simpl.
      by rewrite lookup_insert_ne, Hlive.
    + rewrite OnSendSyncMessage_absent by done. simpl. by rewrite Hlive.
  - intros other invocation Hne. unfold OnDestroyInstance.
    destruct (instances_ st !! other) as [inst|] eqn:Hother; simpl.
    + by rewrite lookup_delete_ne, Hlive.
    + by rewrite Hlive.
Qed.

(** ** Instance ids over a run of calls *)

Section Ids.

Variable env : Platform.

(** Where an entry of the instance table after one call comes from: it was
    there before, with the same push callback, or it was created by this call
    under the id just drawn. *)
Lemma HandleDBusMethod_instances (connection : Connection) (call : MethodCall)
    (invocation : Invocation) (st : State) :
  uuids_drawn st
    ≤ uuids_drawn (HandleDBusMethod env connection call invocation st)
  ∧ ∀ id inst',
      instances_ (HandleDBusMethod env connection call invocation st) !! id
        = Some inst' →
      (∃ inst, instances_ st !! id = Some inst
               ∧ post_message_callback_ inst' = post_message_callback_ inst)
      ∨ (id = uuid_source env (uuids_drawn st)
         ∧ uuids_drawn (HandleDBusMethod env connection call invocation st)
             = S (uuids_drawn st)
         ∧ snd <$> post_message_callback_ inst' = Some id).
Proof.
  destruct call as [nm|target|target msg|target msg]; simpl.
  - pose proof (OnCreateInstance_cases env connection nm invocation st)
      as (Hn & Hnone & Hfail & Hsucc).
    split; [lia|]. intros id inst'.
    destruct (extensions_ st !! nm) as [ext|] eqn:Hext.
    + destruct (CreateInstance ext) as [instance|] eqn:Hnew.
      * destruct (Hsucc _ _ eq_refl Hnew) as [-> _].
        rewrite lookup_insert. case_decide as Hid.
        -- intros [= <-]. right. by rewrite Hid.
        -- intros Hin. left. eauto.
      * destruct (Hfail _ eq_refl Hnew) as [-> _]. intros Hin. left. eauto.
    + destruct (Hnone eq_refl) as [-> _]. intros Hin. left. eauto.
  - unfold OnDestroyInstance.
    destruct (instances_ st !! target) as [inst|] eqn:Hlive; simpl.
    + split; [lia|]. intros id inst'. rewrite lookup_delete.
      case_decide; [done|]. intros Hin. left. eauto.
    + split; [lia|]. intros id inst' Hin. left. eauto.
  - unfold OnSendSyncMessage, HandleSyncMessage.
    destruct (instances_ st !! target) as [inst|] eqn:Hlive.
    + rewrite invoke_all_events. simpl. split; [lia|]. intros id inst'.
      rewrite insert_insert_eq, lookup_insert. case_decide as Hid.
      * intros [= <-]. left. exists inst.
        by rewrite <- Hid, outcalls_instance_post.
      * intros Hin. left. eauto.
    + simpl. split; [lia|]. intros id inst' Hin. left. eauto.
  - unfold OnPostMessage, HandleMessage.
    destruct (instances_ st !! target) as [inst|] eqn:Hlive.
    + rewrite invoke_all_events. simpl. split; [lia|]. intros id inst'.
      rewrite lookup_insert. case_decide as Hid.
      * intros [= <-]. left. exists inst.
        by rewrite <- Hid, outcalls_instance_post.
      * intros Hin. left. eauto.
    + simpl. split; [lia|]. intros id inst' Hin. left. eauto.
Qed.

Lemma HandleDBusMethod_ok (connection : Connection) (call : MethodCall)
    (invocation : Invocation) (st : State) :
  instances_ok env st →
  instances_ok env (HandleDBusMethod env connection call invocation st).
Proof.
  intros [Hissued Hbound].
  destruct (HandleDBusMethod_instances connection call invocation st)
    as [Hle Hfrom].
  split; intros id inst' H;
    destruct (Hfrom _ _ H) as [(inst & Hold & Hcb)|(-> & Hn & Hcb)].
  - destruct (Hissued _ _ Hold) as (k & Hk & <-). exists k. split; [lia|done].
  - exists (uuids_drawn st). split; [lia|done].
  - rewrite Hcb. eauto.
  - done.
Qed.

Lemma serve_ok (calls : list (Connection * MethodCall * Invocation))
    (st : State) :
  instances_ok env st → instances_ok env (serve env calls st).
Proof.
  unfold serve. revert st.
  induction calls as [|[[connection call] invocation] calls IH];
    intros st Hok; [done|].
  simpl. by apply IH, HandleDBusMethod_ok.
Qed.

Hypothesis never_repeats :
  ∀ m n, uuid_source env m = uuid_source env n → m = n.

Lemma HandleDBusMethod_retired (connection : Connection) (call : MethodCall)
    (invocation : Invocation) (id : string) (st : State) :
  retired env id st →
  retired env id (HandleDBusMethod env connection call invocation st).
Proof.
  intros [Hgone (k & Hk & Hid)].
  destruct (HandleDBusMethod_instances connection call invocation st)
    as [Hle Hfrom].
  unfold retired. split.
  2: { exists k. split; [lia|exact Hid]. }
  destruct (instances_ (HandleDBusMethod env connection call invocation st)
              !! id) as [inst'|] eqn:H; [|done].
  destruct (Hfrom _ _ H) as [(inst & Hold & _)|(Heq & _)]; [congruence|].
  rewrite <- Hid in Heq. apply never_repeats in Heq. lia.
Qed.

Lemma serve_retired (calls : list (Connection * MethodCall * Invocation))
    (id : string) (st : State) :
  retired env id st → retired env id (serve env calls st).
Proof.
  unfold serve. revert st.
  induction calls as [|[[connection call] invocation] calls IH];
    intros st Hret; [done|].
  simpl. by apply IH, HandleDBusMethod_retired.
Qed.

Lemma next_id_not_live (st : State) :
  instances_ok env st →
  instances_ st !! uuid_source env (uuids_drawn st) = None.
Proof.
  intros [Hissued _].
  destruct (instances_ st !! _) as [inst|] eqn:H; [|done].
  destruct (Hissued _ _ H) as (k & Hk & Heq).
  apply never_repeats in Heq. lia.
Qed.

End Ids.

(** C2. Let the id generator never return the same id twice, and let any
    sequence of calls have run on a server that started with no instance.
    [OnCreateInstance] for a name that is not in the module table returns
    the error "Not found extension"; for a module whose factory yields no
    instance it returns the error "Failed to create instance of extension";
    in both cases the instance table is unchanged and nothing else is
    returned, so the id that was generated for the call is neither stored
    nor handed out.  Otherwise the id of the call is fresh (it is not live
    and the generator has not handed it out before), the instance is stored
    under it and it is returned on the invocation, read as a C string: the
    caller gets exactly the id whenever the id holds no NUL byte. *)
Theorem CreateInstance_outcomes (env : Platform) (st0 : State)
    (calls : list (Connection * MethodCall * Invocation))
    (connection : Connection) (extension_name : string)
    (invocation : Invocation) :
  (∀ m n, uuid_source env m = uuid_source env n → m = n) →
  instances_ st0 = ∅ →
  let st := serve env calls st0 in
  let instance_id := uuid_source env (uuids_drawn st) in
  let st' := OnCreateInstance env connection extension_name invocation st in
  (extensions_ st !! extension_name = None →
     instances_ st' = instances_ st
     ∧ trace st' = trace st ++
         [Logged ERROR
            ("Failed to find extension '" +:+ extension_name +:+ "'");
          ReturnError invocation
            ("Not found extension " +:+ extension_name)])
  ∧ (∀ ext, extensions_ st !! extension_name = Some ext →
       CreateInstance ext = None →
       instances_ st' = instances_ st
       ∧ trace st' = trace st ++
           [Logged ERROR
              ("Failed to create instance of extension '"
                 +:+ extension_name +:+ "'");
            ReturnError invocation
              ("Failed to create instance of extension "
                 +:+ extension_name)])
  ∧ (∀ ext instance, extensions_ st !! extension_name = Some ext →
       CreateInstance ext = Some instance →
       instances_ st !! instance_id = None
       ∧ (∀ k, k < uuids_drawn st → uuid_source env k ≠ instance_id)
       ∧ instances_ st' =
           <[instance_id :=
               SetPostMessageCallback (connection, instance_id) instance]>
             (instances_ st)
       ∧ trace st' =
           trace st ++ [ReturnValue invocation (as_c_string instance_id)]
       ∧ (as_c_string instance_id = instance_id →
          trace st' = trace st ++ [ReturnValue invocation instance_id])).
Proof.
  intros Hinj Hempty st instance_id st'.
  destruct (OnCreateInstance_cases env connection extension_name invocation
              st) as (_ & Hnone & Hfail & Hsucc).
  split; [exact Hnone|]. split; [exact Hfail|].
  intros ext instance Hext Hnew.
  assert (Hok : instances_ok env st).
  { apply serve_ok. split; intros i x; rewrite Hempty, lookup_empty; done. }
  destruct (Hsucc ext instance Hext Hnew) as [Hstored Hreturned].
  split; [by apply next_id_not_live|].
  split; [intros k Hk Heq; apply Hinj in Heq; lia|].
  split; [exact Hstored|]. split; [exact Hreturned|].
  intros Hplain. rewrite <- Hplain. exact Hreturned.
Qed.

(** C4. Let the id generator never return the same id twice, and let any
    sequence of calls run on a server that starts with no instance.  Then
    every live instance sits under the very id that was bound into it when
    it was created, and the id the next creation will use is not live, so no
    id ever names two live instances.  And once a live id has been destroyed
    it stays out of the table whatever calls follow, so that a later
    [OnDestroyInstance] or [OnSendSyncMessage] for it returns the error
    "Not found instance" and a later [OnPostMessage] only logs. *)
Theorem instance_ids_unique_and_never_reused (env : Platform) (st0 : State)
    (calls : list (Connection * MethodCall * Invocation)) :
  (∀ m n, uuid_source env m = uuid_source env n → m = n) →
  instances_ st0 = ∅ →
  let st := serve env calls st0 in
  (∀ id inst, instances_ st !! id = Some inst →
     snd <$> post_message_callback_ inst = Some id)
  ∧ instances_ st !! uuid_source env (uuids_drawn st) = None
  ∧ ∀ id invocation later, is_Some (instances_ st !! id) →
      let st' := serve env later (OnDestroyInstance id invocation st) in
      instances_ st' !! id = None
      ∧ (∀ invocation',
           OnDestroyInstance id invocation' st' =
             emit_all
               [Logged ERROR ("Failed to find instance '" +:+ id +:+ "'");
                ReturnError invocation' ("Not found instance " +:+ id)]
               st')
      ∧ (∀ msg invocation',
           OnSendSyncMessage env id msg invocation' st' =
             emit_all
               [Logged ERROR ("Failed to find instance '" +:+ id +:+ "'");
                ReturnError invocation' ("Not found instance " +:+ id)]
               st')
      ∧ (∀ msg,
           OnPostMessage env id msg st' =
             emit_all
               [Logged ERROR ("Failed to find instance '" +:+ id +:+ "'")]
               st').
Proof.
  intros Hinj Hempty st.
  assert (Hok : instances_ok env st).
  { apply serve_ok. split; intros id inst; rewrite Hempty, lookup_empty; done. }
  split; [apply Hok|]. split; [by apply next_id_not_live|].
  intros id invocation later [inst Hlive] st'.
  assert (Hgone : instances_ st' !! id = None).
  { apply (serve_retired env Hinj). split.
    - unfold OnDestroyInstance. rewrite Hlive. simpl. apply lookup_delete_eq.
    - unfold OnDestroyInstance. rewrite Hlive. simpl.
      eapply ok_issued; eauto. }
  split; [done|]. split; [|split].
  - intros ?. by apply OnDestroyInstance_absent.
  - intros ? ?. by apply OnSendSyncMessage_absent.
  - intros ?. by apply OnPostMessage_absent.
Qed.

(** ** The claims on concrete servers *)

Lemma unary_id_inj (m n : nat) : unary_id m = unary_id n → m = n.
Proof.
  revert n. induction m as [|m IH]; intros [|n]; simpl; try done.
  intros [= H]. f_equal. by apply IH.
Qed.

(** [libfirst.so] holds entry point [x]; [libsecond.so], which claims it
    too, is turned away and leaves both tables as they were. *)
Lemma admission_atomic_and_unique_witness :
  let st :=
    RegisterExtension clash_platform
      "/usr/lib/tizen-extensions-crosswalk/libfirst.so"
      (new_ExtensionServer "app") in
  let st' :=
    RegisterExtension clash_platform
      "/usr/lib/tizen-extensions-crosswalk/libsecond.so" st in
  extensions_ st' = extensions_ st
  ∧ extension_symbols_ st' = extension_symbols_ st.
Proof.
  apply (proj2 (admission_atomic_and_unique clash_platform) _ _
           (module "second" ["x"])).
  - reflexivity.
  - right. exists "x". split; [apply list_elem_of_here | compute_done].
Defined.

(** A module named [a] with entry points [a], [b], [b] is accepted to an
    empty registry, which then holds two symbols. *)
Lemma admission_checks_only_earlier_modules_witness :
  let st := new_ExtensionServer "app" in
  let i := module "a" ["a"; "b"; "b"] in
  let st' := RegisterExtension dup_platform "/opt/app/liba.so" st in
  (Initialize dup_platform "/opt/app/liba.so" = Some i
   ∧ info_name i ∉ extension_symbols_ st
   ∧ (∀ ep, ep ∈ info_entry_points i → ep ∉ extension_symbols_ st))
  ∧ extensions_ st' =
      <[info_name i := {| library_path_ := "/opt/app/liba.so"; info := i |}]>
        (extensions_ st)
  ∧ extension_symbols_ st' =
      {[info_name i]} ∪ list_to_set (info_entry_points i)
        ∪ extension_symbols_ st
  ∧ size (extension_symbols_ st') =
      size (list_to_set (info_name i :: info_entry_points i) : gset string)
        + size (extension_symbols_ st).
Proof.
  intros st i st'.
  assert (H1 : Initialize dup_platform "/opt/app/liba.so" = Some i)
    by reflexivity.
  assert (H2 : info_name i ∉ extension_symbols_ st)
    by apply not_elem_of_empty.
  assert (H3 : ∀ ep, ep ∈ info_entry_points i → ep ∉ extension_symbols_ st)
    by (intros ep _; apply not_elem_of_empty).
  split; [by repeat split|].
  exact (admission_checks_only_earlier_modules dup_platform
           "/opt/app/liba.so" i st H1 H2 H3).
Defined.

(** C5 on [clash_platform]: the system library named [second] and the
    caller's library named [second] both load, and after [Start] the name
    [second] belongs to the caller's library, because the system one was
    turned away over its entry point. *)
Lemma caller_module_wins_when_system_namesake_was_turned_away :
  let sys := "/usr/lib/tizen-extensions-crosswalk/libsecond.so" in
  let extra := "/opt/app/libsecond.so" in
  let st :=
    (Start clash_platform [extra] (new_ExtensionServer "app")).2 in
  sys ∈ glob clash_platform
          (EXTENSION_PATH clash_platform +:+ "/" +:+ kExtensionPrefix +:+ "*"
             +:+ kExtensionSuffix)
  ∧ info_name <$> Initialize clash_platform sys = Some "second"
  ∧ Exists clash_platform extra = true
  ∧ info_name <$> Initialize clash_platform extra = Some "second"
  ∧ library_path_ <$> extensions_ st !! "second" = Some extra
  ∧ library_path_ <$> extensions_ st !! "first"
      = Some "/usr/lib/tizen-extensions-crosswalk/libfirst.so"
  ∧ size (extensions_ st) = 2.
Proof.
  intros sys extra st.
  split; [apply list_elem_of_further, list_elem_of_here|].
  split; [reflexivity|]. split; [reflexivity|]. split; [reflexivity|].
  split; [by vm_compute|]. split; by vm_compute.
Qed.

(** The system [echo] is in the table after the system phase, so the
    caller's [libecho.so] is turned away. *)
Lemma system_extension_precedence_witness :
  let s := {| library_path_ :=
                "/usr/lib/tizen-extensions-crosswalk/libecho.so";
              info := module "echo" ["echo.ping"] |} in
  let st :=
    (Start echo_platform ["/opt/app/libecho.so"]
       (new_ExtensionServer "app")).2 in
  (ConnectByName echo_platform
     ("app" +:+ "." +:+ kDBusNameForApplication echo_platform) = true
   ∧ extensions_
       (RegisterSystemExtensions echo_platform (new_ExtensionServer "app"))
       !! "echo" = Some s)
  ∧ extensions_ st !! "echo" = Some s.
Proof.
  intros s st.
  assert (H1 : ConnectByName echo_platform
                 ("app" +:+ "." +:+ kDBusNameForApplication echo_platform)
               = true) by reflexivity.
  assert (H2 : extensions_
                 (RegisterSystemExtensions echo_platform
                    (new_ExtensionServer "app")) !! "echo" = Some s)
    by (vm_compute; reflexivity).
  split; [by split|].
  exact (proj1 (proj2 (system_extension_precedence echo_platform "app"
                         ["/opt/app/libecho.so"] "echo" s H1 H2))).
Defined.

(** With the bus out of reach [Start] fails and registers nothing, although
    the system directory holds a module that loads. *)
Lemma Start_fails_iff_connection_fails_witness :
  let st := new_ExtensionServer "app" in
  (Start offline_platform [] st).1 = false
  ∧ extensions_ (Start offline_platform [] st).2 = extensions_ st.
Proof.
  intros st.
  pose proof (Start_fails_iff_connection_fails offline_platform [] st)
    as (Hiff & Hoff & _).
  split; [by apply Hiff | by apply Hoff].
Defined.

(** The factory of [mute] yields nothing: the call fails and the table is as
    before; an instance of [echo] is stored under the id of the call, which
    was not live. *)
Lemma CreateInstance_outcomes_witness :
  let st := serve echo_platform [] echo_server in
  let instance_id := uuid_source echo_platform (uuids_drawn st) in
  let failed := OnCreateInstance echo_platform (Some 0) "mute" 1 st in
  let made := OnCreateInstance echo_platform (Some 0) "echo" 1 st in
  ((∀ m n, uuid_source echo_platform m = uuid_source echo_platform n → m = n)
   ∧ instances_ echo_server = ∅)
  ∧ (instances_ failed = instances_ st
     ∧ trace failed = trace st ++
         [Logged ERROR
            ("Failed to create instance of extension '" +:+ "mute" +:+ "'");
          ReturnError 1
            ("Failed to create instance of extension " +:+ "mute")])
  ∧ (instances_ st !! instance_id = None
     ∧ trace made = trace st ++ [ReturnValue 1 instance_id]).
Proof.
  intros st instance_id failed made.
  assert (H1 : ∀ m n,
            uuid_source echo_platform m = uuid_source echo_platform n → m = n)
    by exact unary_id_inj.
  assert (H2 : instances_ echo_server = ∅) by (vm_compute; reflexivity).
  split; [by split|]. split.
  - destruct (CreateInstance_outcomes echo_platform echo_server []
                (Some 0) "mute" 1 H1 H2) as (_ & Hfail & _).
    refine (Hfail {| library_path_ := "/opt/app/libmute.so";
                     info := barren_module "mute" |} _ _).
    + vm_compute. reflexivity.
    + reflexivity.
  - destruct (CreateInstance_outcomes echo_platform echo_server []
                (Some 0) "echo" 1 H1 H2) as (_ & _ & Hsucc).
    destruct (Hsucc {| library_path_ :=
                         "/usr/lib/tizen-extensions-crosswalk/libecho.so";
                       info := module "echo" ["echo.ping"] |}
                {| extension_ := "echo"; logic := pong_logic; received := [];
                   post_message_callback_ := None;
                   send_sync_reply_callback_ := None |})
      as (Hfresh & _ & _ & _ & Htrace).
    + vm_compute. reflexivity.
    + reflexivity.
    + split; [exact Hfresh | apply Htrace; vm_compute; reflexivity].
Defined.

(** ["ping"] to the live [echo] instance comes back as ["pong"] and nothing
    else happens. *)
Lemma SendSyncMessage_returns_the_reply_witness :
  trace (OnSendSyncMessage echo_platform "id" "ping" 2 echo_live)
    = trace echo_live ++ [ReturnValue 2 "pong"].
Proof.
  refine (proj2 (proj1 (SendSyncMessage_returns_the_reply echo_platform "id"
                          "ping" 2 echo_live) echo_instance "pong" _ _) _).
  - vm_compute. reflexivity.
  - reflexivity.
  - reflexivity.
Defined.

(** Destroying the live [echo] instance returns its id. *)
Lemma DestroyInstance_confirms_or_not_found_witness :
  OnDestroyInstance "id" 3 echo_live =
    emit_all [DeleteInstance "id"; ReturnValue 3 "id"]
      (set_instances (delete "id") echo_live)
  ∧ OnDestroyInstance "nonexistent" 4 echo_live =
      emit_all
        [Logged ERROR "Failed to find instance 'nonexistent'";
         ReturnError 4 "Not found instance nonexistent"]
        echo_live.
Proof.
  destruct (DestroyInstance_confirms_or_not_found "id" 3 echo_live)
    as [Hlive _].
  destruct (DestroyInstance_confirms_or_not_found "nonexistent" 4 echo_live)
    as [_ Hgone].
  split.
  - apply (Hlive echo_instance). vm_compute. reflexivity.
  - apply Hgone. vm_compute. reflexivity.
Defined.

(** A message posted to an id nobody holds is dropped with a log line. *)
Lemma PostMessage_drops_or_delivers_witness :
  OnPostMessage echo_platform "nonexistent" "x" echo_live =
    emit_all [Logged ERROR "Failed to find instance 'nonexistent'"] echo_live.
Proof.
  apply (proj1 (PostMessage_drops_or_delivers echo_platform "nonexistent" "x"
                  echo_live)).
  vm_compute. reflexivity.
Defined.

(** On [echo_live] the reply ["pong"] goes to invocation 5 and the instance
    is left without a sink. *)
Lemma sync_reply_sink_is_cleared_after_the_reply_witness :
  instances_ echo_live !! "id" = Some echo_instance
  ∧ trace (OnSendSyncMessage echo_platform "id" "again" 5 echo_live)
      = trace echo_live ++ [ReturnValue 5 (as_c_string "pong")]
  ∧ send_sync_reply_callback_ <$>
      instances_ (OnSendSyncMessage echo_platform "id" "again" 5 echo_live)
        !! "id"
    = Some None.
Proof.
  assert (H : instances_ echo_live !! "id" = Some echo_instance)
    by (vm_compute; reflexivity).
  split; [exact H|].
  exact (proj1 (sync_reply_sink_is_cleared_after_the_reply echo_platform "id"
                  echo_instance echo_live H) "again" 5 "pong" eq_refl).
Defined.

(** Two instances of [echo] are created, the first is destroyed, a third is
    created: the first id stays dead. *)
Lemma instance_ids_unique_and_never_reused_witness :
  let calls := [(Some 0, kMethodCreateInstance "echo", 1);
                (Some 0, kMethodCreateInstance "echo", 2)] in
  let later := [(Some 0, kMethodCreateInstance "echo", 4)] in
  let st := serve echo_platform calls echo_server in
  let st' := serve echo_platform later (OnDestroyInstance "id" 3 st) in
  ((∀ m n, uuid_source echo_platform m = uuid_source echo_platform n → m = n)
   ∧ instances_ echo_server = ∅
   ∧ is_Some (instances_ st !! "id"))
  ∧ instances_ st' !! "id" = None
  ∧ OnDestroyInstance "id" 5 st' =
      emit_all
        [Logged ERROR "Failed to find instance 'id'";
         ReturnError 5 "Not found instance id"]
        st'.
Proof.
  intros calls later st st'.
  assert (H1 : ∀ m n,
            uuid_source echo_platform m = uuid_source echo_platform n → m = n)
    by exact unary_id_inj.
  assert (H2 : instances_ echo_server = ∅) by reflexivity.
  assert (H3 : is_Some (instances_ st !! "id"))
    by (eexists; vm_compute; reflexivity).
  split; [by repeat split|].
  destruct (instance_ids_unique_and_never_reused echo_platform echo_server
              calls H1 H2) as (_ & _ & Hdead).
  destruct (Hdead "id" 3 later H3) as (Hgone & Hdestroy & _).
  split; [exact Hgone | exact (Hdestroy 5)].
Defined.

(** The round of calls a client makes on one instance: create, synchronous
    message, destroy, and a synchronous message to the id that is gone. *)
Example echo_session :
  drop (length (trace echo_server))
    (trace
       (serve echo_platform
          [(Some 0, kMethodCreateInstance "echo", 1);
           (Some 0, kMethodSendSyncMessage "id" "ping", 2);
           (Some 0, kMethodDestroyInstance "id", 3);
           (Some 0, kMethodSendSyncMessage "id" "ping", 4)]
          echo_server))
  = [ReturnValue 1 "id";
     ReturnValue 2 "pong";
     DeleteInstance "id";
     ReturnValue 3 "id";
     Logged ERROR "Failed to find instance 'id'";
     ReturnError 4 "Not found instance id"].
Proof. by vm_compute. Qed.

(** * More of the server *)

(** ** The registry after [Start] *)

Section StartInvariants.

Variable env : Platform.

(** Whatever every admission and every trace entry keeps, [Start] keeps. *)
Lemma Start_invariant (Q : State → Prop) (paths : list string) (st : State) :
  (∀ e st, Q st → Q (emit e st)) →
  (∀ path st, Q st → Q (RegisterExtension env path st)) →
  Q st → Q (Start env paths st).2.
Proof.
  intros Hemit Hreg HQ. unfold Start.
  destruct (negb _); simpl; [by apply Hemit|].
  unfold NotifyEPCreatedToApplication. do 4 apply Hemit.
  assert (Hsys : Q (RegisterSystemExtensions env st)).
  { unfold RegisterSystemExtensions.
    generalize (glob env (EXTENSION_PATH env +:+ "/" +:+ kExtensionPrefix
                            +:+ "*" +:+ kExtensionSuffix)).
    intros l. revert st HQ. induction l as [|p l IH]; intros st HQ; [done|].
    simpl. by apply IH, Hreg. }
  revert Hsys. generalize (RegisterSystemExtensions env st).
  induction paths as [|p paths IH]; intros st' HQ'; [done|].
  simpl. apply IH. destruct (Exists env p); [by apply Hreg | done].
Qed.

Lemma emit_registry_ok (e : Event) (st : State) :
  registry_ok env st → registry_ok env (emit e st).
Proof. by intros []. Qed.

Lemma emit_registry_tight (e : Event) (st : State) :
  registry_tight st → registry_tight (emit e st).
Proof. by intros []. Qed.

Lemma admission_keeps_tight (path : string) (st st' : State) :
  admission env path st st' → registry_ok env st → registry_tight st →
  registry_tight st'.
Proof.
  intros [Hi ->|i text Hi Hcol ->|i Hi Hname Heps Hexts Hsyms _ _ _]
    Hok Htight; [done|by destruct Htight|].
  set (ext := {| library_path_ := path; info := i |}) in *.
  destruct Hok as [Hkey _ Hnm Hep _]. destruct Htight as [Hsym Hent].
  assert (Hold : ∀ k e, extensions_ st !! k = Some e → k ≠ info_name i).
  { intros k e He ->. apply Hname. rewrite <- (Hkey _ _ He) at 1. eauto. }
  assert (Hlook : ∀ k e, extensions_ st' !! k = Some e →
            (k = info_name i ∧ e = ext)
              ∨ (k ≠ info_name i ∧ extensions_ st !! k = Some e)).
  { intros k e. rewrite Hexts, lookup_insert.
    case_decide; [intros [= <-]; auto | intros He; right; eauto]. }
  split.
  - intros x. rewrite Hsyms. intros Hx.
    destruct (decide (x ∈ extension_symbols_ st)) as [Hin|Hout].
    + destruct (Hsym _ Hin) as (k & e & He & Hxe). exists k, e.
      split; [|done]. rewrite Hexts, lookup_insert_ne; [done|].
      intros <-. by eapply Hold.
    + exists (info_name i), ext. split; [by rewrite Hexts, lookup_insert_eq|].
      unfold identifiers, name, entry_points; simpl. set_solver.
  - intros k1 k2 e1 e2 ep H1 H2 Hne Hin1 Hin2.
    destruct (Hlook _ _ H1) as [[-> ->]|[_ H1']];
      destruct (Hlook _ _ H2) as [[-> ->]|[_ H2']].
    + done.
    + apply (Heps ep); [done | eauto].
    + apply (Heps ep); [done | eauto].
    + exact (Hent _ _ _ _ _ H1' H2' Hne Hin1 Hin2).
Qed.

Lemma Start_registry_ok (uuid : string) (paths : list string) :
  registry_ok env (Start env paths (new_ExtensionServer uuid)).2
  ∧ registry_tight (Start env paths (new_ExtensionServer uuid)).2.
Proof.
  apply (Start_invariant (λ st, registry_ok env st ∧ registry_tight st)).
  - intros e st [? ?]. split; [by apply emit_registry_ok|].
    by apply emit_registry_tight.
  - intros path st [Hok Htight]. split; [by apply RegisterExtension_ok|].
    eapply admission_keeps_tight; [apply RegisterExtension_admission|done..].
  - split; [apply new_ExtensionServer_ok|].
    split; simpl; intros *; [set_solver | by rewrite lookup_empty].
Qed.

End StartInvariants.

(** X1. After [Start] on a new server the symbol set is exactly the set of
    names and entry points of the registered modules: a module that was
    turned away has left nothing behind. *)
Theorem symbols_are_the_registered_identifiers (env : Platform)
    (uuid : string) (paths : list string) (x : string) :
  let st := (Start env paths (new_ExtensionServer uuid)).2 in
  x ∈ extension_symbols_ st
  ↔ ∃ k ext, extensions_ st !! k = Some ext ∧ x ∈ identifiers ext.
Proof.
  intros st. destruct (Start_registry_ok env uuid paths) as [Hok Htight].
  fold st in Hok, Htight. split; [apply Htight|].
  intros (k & ext & He & Hx). unfold identifiers in Hx.
  apply elem_of_union in Hx as [Hx|Hx].
  - apply elem_of_singleton in Hx as ->. eapply ok_name; eauto.
  - apply elem_of_list_to_set in Hx. eapply ok_entry; eauto.
Qed.

(** X2. After [Start] on a new server two different registered modules have
    no entry point in common. *)
Theorem registered_entry_points_are_disjoint (env : Platform) (uuid : string)
    (paths : list string) (k1 k2 : string) (e1 e2 : Extension)
    (ep : string) :
  let st := (Start env paths (new_ExtensionServer uuid)).2 in
  extensions_ st !! k1 = Some e1 → extensions_ st !! k2 = Some e2 →
  e1 ≠ e2 → ep ∈ entry_points e1 → ep ∉ entry_points e2.
Proof.
  intros st. destruct (Start_registry_ok env uuid paths) as [_ Htight].
  apply Htight.
Qed.

(** X3. A library that is registered is turned away when it is offered
    again: the only effect is the warning that its name is taken. *)
Theorem registered_library_is_turned_away_again (env : Platform)
    (uuid : string) (paths : list string) (k : string) (ext : Extension) :
  let st := (Start env paths (new_ExtensionServer uuid)).2 in
  extensions_ st !! k = Some ext →
  RegisterExtension env (library_path_ ext) st =
    LOGGER WARN
      ("Ignoring extension with name already registred. '" +:+ name ext
         +:+ "'") st.
Proof.
  intros st He. destruct (Start_registry_ok env uuid paths) as [Hok _].
  fold st in Hok. unfold RegisterExtension.
  rewrite (ok_loaded _ _ Hok _ _ He).
  replace {| library_path_ := library_path_ ext; info := info ext |}
    with ext by by destruct ext.
  unfold RegisterSymbols.
  destruct (decide (name ext ∈ extension_symbols_ st)) as [|Hout]; [done|].
  destruct Hout. eapply ok_name; eauto.
Qed.

(** ** What [Start] does besides registering *)

Section StartTrace.

Variable env : Platform.

Lemma registered_more_refl (st : State) : registered_more st st.
Proof.
  repeat split. exists []. split; [constructor | by rewrite app_nil_r].
Qed.

Lemma registered_more_trans (st1 st2 st3 : State) :
  registered_more st1 st2 → registered_more st2 st3 → registered_more st1 st3.
Proof.
  intros (Ha & Hi & Hu & l1 & Hl1 & Ht1) (Ha' & Hi' & Hu' & l2 & Hl2 & Ht2).
  split; [congruence|]. split; [congruence|]. split; [congruence|].
  exists (l1 ++ l2). split; [by apply Forall_app|].
  by rewrite Ht2, Ht1, app_assoc.
Qed.

Lemma RegisterExtension_registered_more (path : string) (st : State) :
  registered_more st (RegisterExtension env path st).
Proof.
  destruct (RegisterExtension_frame env path st) as (Hi & Hu & Ha).
  split; [done|]. split; [done|]. split; [done|].
  destruct (RegisterExtension_admission env path st)
    as [_ ->|i text _ _ ->|i _ _ _ _ _ _ _ Htr].
  - exists []. split; [constructor | by rewrite app_nil_r].
  - exists [Logged WARN text]. split; [|done]. repeat constructor. eauto.
  - eexists. split; [|exact Htr]. repeat constructor. eauto.
Qed.

Lemma RegisterSystemExtensions_registered_more (st : State) :
  registered_more st (RegisterSystemExtensions env st).
Proof.
  unfold RegisterSystemExtensions.
  generalize (glob env (EXTENSION_PATH env +:+ "/" +:+ kExtensionPrefix
                          +:+ "*" +:+ kExtensionSuffix)).
  intros l. revert st. induction l as [|p l IH]; intros st; simpl.
  - apply registered_more_refl.
  - eapply registered_more_trans; [|apply IH].
    apply RegisterExtension_registered_more.
Qed.

Lemma register_existing_registered_more (paths : list string) (st : State) :
  registered_more st
    (foldl (λ st path, if Exists env path then RegisterExtension env path st
                       else st) st paths).
Proof.
  revert st. induction paths as [|p paths IH]; intros st; simpl.
  - apply registered_more_refl.
  - eapply registered_more_trans; [|apply IH].
    destruct (Exists env p); [apply RegisterExtension_registered_more|].
    apply registered_more_refl.
Qed.

Lemma register_existing_origin (paths : list string) (st : State)
    (k : string) (e : Extension) :
  extensions_
    (foldl (λ st path, if Exists env path then RegisterExtension env path st
                       else st) st paths) !! k = Some e →
  extensions_ st !! k = Some e
    ∨ (library_path_ e ∈ paths ∧ Exists env (library_path_ e) = true).
Proof.
  revert st. induction paths as [|p paths IH]; intros st; simpl; [auto|].
  intros H. destruct (IH _ H) as [H'|[H1 H2]].
  - destruct (Exists env p) eqn:Hp; [|auto].
    destruct (RegisterExtension_origin _ _ _ _ _ H') as [?| ->]; [auto|].
    right. split; [left | done].
  - right. split; [by right | done].
Qed.

End StartTrace.

(** X4. After [Start] on a new server every registered module sits under its
    own name, is what the loader made of its library, and its library is
    one that the system directory lists or one of the caller's paths that
    exists. *)
Theorem registered_modules_were_discovered (env : Platform) (uuid : string)
    (paths : list string) (k : string) (ext : Extension) :
  let st := (Start env paths (new_ExtensionServer uuid)).2 in
  extensions_ st !! k = Some ext →
  name ext = k
  ∧ Initialize env (library_path_ ext) = Some (info ext)
  ∧ discovered env paths (library_path_ ext).
Proof.
  intros st He. destruct (Start_registry_ok env uuid paths) as [Hok _].
  fold st in Hok.
  split; [eapply ok_key; eauto|]. split; [eapply ok_loaded; eauto|].
  unfold st, Start in He.
  destruct (negb _); simpl in He; [by rewrite lookup_empty in He|].
  destruct (register_existing_origin _ _ _ _ _ He) as [Hsys|Hextra].
  - left. destruct (register_each_origin _ _ _ _ _ Hsys) as [H|H]; [|done].
    simpl in H. by rewrite lookup_empty in H.
  - by right.
Qed.

(** The shape of a successful [Start]. *)
Lemma Start_connected (env : Platform) (paths : list string)
    (st : State) :
  ConnectByName env (app_uuid_ st +:+ "." +:+ kDBusNameForApplication env)
    = true →
  instances_ (Start env paths st).2 = instances_ st
  ∧ uuids_drawn (Start env paths st).2 = uuids_drawn st
  ∧ ∃ logs, Forall (λ e, ∃ level text, e = Logged level text) logs
      ∧ trace (Start env paths st).2 =
          trace st ++ logs ++
            [SetIntrospectionXML kDBusIntrospectionXML;
             SetMethodCallback (kDBusInterfaceNameForExtension env);
             ServerStart (app_uuid_ st +:+ "." +:+ kDBusNameForExtension env);
             ClientCall (kDBusInterfaceNameForApplication env)
               (kMethodNotifyEPCreated env) (GetClientAddress env)].
Proof.
  intros Hconn. unfold Start. rewrite Hconn. simpl.
  pose proof (registered_more_trans _ _ _
                (RegisterSystemExtensions_registered_more env st)
                (register_existing_registered_more env paths _))
    as (Ha & Hi & Hu & logs & Hlogs & Htr).
  split; [done|]. split; [done|]. exists logs. split; [done|].
  rewrite Htr, Ha. by rewrite <- !app_assoc.
Qed.

(** X5. [Start] on a connected platform leaves the instance table and the
    id generator alone, and its effects are, in this order: log lines of the
    registration, the set-up and start of the bus server, and last the one
    call that tells the Application the address of the server. *)
Theorem Start_announces_last (env : Platform) (paths : list string)
    (st : State) :
  ConnectByName env (app_uuid_ st +:+ "." +:+ kDBusNameForApplication env)
    = true →
  instances_ (Start env paths st).2 = instances_ st
  ∧ uuids_drawn (Start env paths st).2 = uuids_drawn st
  ∧ ∃ logs, Forall (λ e, ∃ level text, e = Logged level text) logs
      ∧ trace (Start env paths st).2 =
          trace st ++ logs ++
            [SetIntrospectionXML kDBusIntrospectionXML;
             SetMethodCallback (kDBusInterfaceNameForExtension env);
             ServerStart (app_uuid_ st +:+ "." +:+ kDBusNameForExtension env);
             ClientCall (kDBusInterfaceNameForApplication env)
               (kMethodNotifyEPCreated env) (GetClientAddress env)].
Proof. apply Start_connected. Qed.

Lemma Start_not_connected (env : Platform) (paths : list string)
    (st : State) :
  ConnectByName env (app_uuid_ st +:+ "." +:+ kDBusNameForApplication env)
    = false →
  Start env paths st =
    (false,
     LOGGER ERROR "Failed to connect to the dbus server for Application." st).
Proof. intros Hconn. unfold Start. by rewrite Hconn. Qed.

Lemma first_registered_app (symbols : gset string)
    (before after : list string) (ep : string) :
  (∀ x, x ∈ before → x ∉ symbols) → ep ∈ symbols →
  first_registered symbols (before ++ ep :: after) = Some ep.
Proof.
  intros Hbefore Hep. induction before as [|x before IH]; simpl.
  - by destruct (decide (ep ∈ symbols)).
  - destruct (decide (x ∈ symbols)) as [Hx|_].
    + destruct (Hbefore x); [left | done].
    + apply IH. intros y Hy. apply Hbefore. by right.
Qed.

(** X6. What [RegisterSymbols] reports when it turns a module away: the name
    if the name is taken, whatever the entry points; otherwise the first
    entry point, in the order of the list, that is taken.  The state is
    otherwise untouched. *)
Theorem RegisterSymbols_reports_first_collision (ext : Extension)
    (st : State) :
  (name ext ∈ extension_symbols_ st →
     RegisterSymbols ext st =
       (false,
        LOGGER WARN
          ("Ignoring extension with name already registred. '" +:+ name ext
             +:+ "'") st))
  ∧ (∀ before ep after,
       name ext ∉ extension_symbols_ st →
       entry_points ext = before ++ ep :: after →
       (∀ x, x ∈ before → x ∉ extension_symbols_ st) →
       ep ∈ extension_symbols_ st →
       RegisterSymbols ext st =
         (false,
          LOGGER WARN
            ("Ignoring extension with entry_point already registred. '"
               +:+ ep +:+ "'") st)).
Proof.
  unfold RegisterSymbols. split.
  - intros Hname. by destruct (decide (name ext ∈ extension_symbols_ st)).
  - intros before ep after Hname Heps Hbefore Hep.
    destruct (decide (name ext ∈ extension_symbols_ st)); [done|].
    by rewrite Heps, first_registered_app.
Qed.

(** ** The process *)

(** X7. [StartExtensionProcess] without an argument fails with one error
    line and nothing else.  With arguments it uses the first as the uuid and
    ignores the rest; it returns [true] exactly when the Application's bus
    name can be reached, and when it cannot, all it has done is to log the
    two errors. *)
Theorem StartExtensionProcess_needs_uuid_and_connection (env : Platform)
    (inbound : list (Connection * MethodCall * Invocation)) :
  StartExtensionProcess env [] inbound
    = (false, [Logged ERROR "uuid is required."])
  ∧ ∀ uuid rest,
      StartExtensionProcess env (uuid :: rest) inbound
        = StartExtensionProcess env [uuid] inbound
      ∧ (StartExtensionProcess env (uuid :: rest) inbound).1
          = ConnectByName env (uuid +:+ "." +:+ kDBusNameForApplication env)
      ∧ (ConnectByName env (uuid +:+ "." +:+ kDBusNameForApplication env)
           = false →
         (StartExtensionProcess env (uuid :: rest) inbound).2 =
           [Logged ERROR
              "Failed to connect to the dbus server for Application.";
            Logged ERROR "Failed to start extension server."]).
Proof.
  split; [done|]. intros uuid rest. split; [done|].
  unfold StartExtensionProcess, Start_no_paths.
  destruct (ConnectByName env (uuid +:+ "." +:+ kDBusNameForApplication env))
    eqn:Hconn.
  - unfold Start. simpl app_uuid_. rewrite Hconn. simpl. by split.
  - rewrite Start_not_connected by done. simpl. by split.
Qed.

(** ** What the handlers leave alone *)

Section Frames.

Variable env : Platform.

Lemma HandleDBusMethod_registry (connection : Connection) (call : MethodCall)
    (invocation : Invocation) (st : State) :
  extensions_ (HandleDBusMethod env connection call invocation st)
    = extensions_ st
  ∧ extension_symbols_ (HandleDBusMethod env connection call invocation st)
    = extension_symbols_ st
  ∧ app_uuid_ (HandleDBusMethod env connection call invocation st)
    = app_uuid_ st.
Proof.
  destruct call as [nm|target|target msg|target msg]; simpl.
  - unfold OnCreateInstance. simpl.
    destruct (extensions_ st !! nm) as [ext|]; [|done].
    by destruct (CreateInstance ext).
  - unfold OnDestroyInstance. by destruct (instances_ st !! target).
  - unfold OnSendSyncMessage, HandleSyncMessage.
    destruct (instances_ st !! target); [|done].
    by rewrite invoke_all_events.
  - unfold OnPostMessage, HandleMessage.
    destruct (instances_ st !! target); [|done].
    by rewrite invoke_all_events.
Qed.

Lemma serve_registry (calls : list (Connection * MethodCall * Invocation))
    (st : State) :
  extensions_ (serve env calls st) = extensions_ st
  ∧ extension_symbols_ (serve env calls st) = extension_symbols_ st.
Proof.
  unfold serve. revert st.
  induction calls as [|[[connection call] invocation] calls IH];
    intros st; [done|].
  simpl. destruct (IH (HandleDBusMethod env connection call invocation st))
    as [-> ->].
  destruct (HandleDBusMethod_registry connection call invocation st)
    as (-> & -> & _). done.
Qed.

Lemma HandleDBusMethod_deletes (connection : Connection) (call : MethodCall)
    (invocation : Invocation) (id : string) (st : State) :
  DeleteInstance id
    ∈ trace (HandleDBusMethod env connection call invocation st) →
  DeleteInstance id ∈ trace st ∨ call = kMethodDestroyInstance id.
Proof.
  destruct call as [nm|target|target msg|target msg]; simpl.
  - unfold OnCreateInstance. simpl.
    destruct (extensions_ st !! nm) as [ext|];
      [destruct (CreateInstance ext)|]; simpl;
      rewrite ?elem_of_app, ?list_elem_of_singleton; naive_solver.
  - unfold OnDestroyInstance.
    destruct (instances_ st !! target); simpl;
      rewrite ?elem_of_app, ?list_elem_of_singleton; naive_solver.
  - unfold OnSendSyncMessage, HandleSyncMessage.
    destruct (instances_ st !! target) as [inst|].
    + rewrite invoke_all_events. simpl. rewrite elem_of_app.
      intros [?|Hin]; [by left|].
      apply outcalls_events_kind in Hin. naive_solver.
    + simpl. rewrite ?elem_of_app, ?list_elem_of_singleton. naive_solver.
  - unfold OnPostMessage, HandleMessage.
    destruct (instances_ st !! target) as [inst|].
    + rewrite invoke_all_events. simpl. rewrite elem_of_app.
      intros [?|Hin]; [by left|].
      apply outcalls_events_kind in Hin. naive_solver.
    + simpl. rewrite ?elem_of_app, ?list_elem_of_singleton. naive_solver.
Qed.

Lemma serve_deletes (calls : list (Connection * MethodCall * Invocation))
    (id : string) (st : State) :
  DeleteInstance id ∈ trace (serve env calls st) →
  DeleteInstance id ∈ trace st
  ∨ ∃ connection invocation,
      (connection, kMethodDestroyInstance id, invocation) ∈ calls.
Proof.
  unfold serve. revert st.
  induction calls as [|[[connection call] invocation] calls IH];
    intros st; simpl; [auto|].
  intros H. destruct (IH _ H) as [H'|(c & i & Hin)].
  - destruct (HandleDBusMethod_deletes _ _ _ _ _ H') as [?| ->]; [auto|].
    right. exists connection, invocation. left.
  - right. exists c, i. by right.
Qed.

End Frames.

(** X8. An instance is torn down only in answer to a [DestroyInstance] call
    for its id: every deletion among the effects of the process belongs to
    such a call among those the main loop served.  In particular the
    instances that are live when the loop quits are not deleted. *)
Theorem instances_are_deleted_only_on_request (env : Platform)
    (arguments : list string)
    (inbound : list (Connection * MethodCall * Invocation)) (id : string) :
  DeleteInstance id ∈ (StartExtensionProcess env arguments inbound).2 →
  ∃ connection invocation,
    (connection, kMethodDestroyInstance id, invocation) ∈ inbound.
Proof.
  destruct arguments as [|uuid rest]; simpl.
  { rewrite list_elem_of_singleton. done. }
  unfold Start_no_paths.
  destruct (ConnectByName env (uuid +:+ "." +:+ kDBusNameForApplication env))
    eqn:Hconn.
  - destruct (Start_connected env [] (new_ExtensionServer uuid) Hconn)
      as (_ & _ & logs & Hlogs & Htr).
    assert (Hok : (Start env [] (new_ExtensionServer uuid)).1 = true).
    { unfold Start. simpl app_uuid_. by rewrite Hconn. }
    destruct (Start env [] (new_ExtensionServer uuid)) as [ok st].
    simpl in Hok, Htr. subst ok. simpl.
    rewrite elem_of_app, list_elem_of_singleton.
    intros [Hin|?]; [|done].
    apply serve_deletes in Hin as [Hin|?]; [|done].
    simpl in Hin. rewrite Htr in Hin.
    rewrite !elem_of_app in Hin. destruct Hin as [[Hin|Hin]|Hin].
    + rewrite Forall_forall in Hlogs. destruct (Hlogs _ Hin) as (? & ? & ?).
      done.
    + rewrite !elem_of_cons in Hin. rewrite elem_of_nil in Hin. naive_solver.
    + rewrite list_elem_of_singleton in Hin. done.
  - rewrite Start_not_connected by done. simpl.
    rewrite !elem_of_cons. rewrite elem_of_nil. naive_solver.
Qed.

(** ** The listing *)

Lemma key_le_total : Total key_le.
Proof. intros [k1 e1] [k2 e2]. unfold key_le; simpl. apply total, _. Qed.

Lemma listing_walks_the_map (st : State) :
  merge_sort key_le (map_to_list (extensions_ st))
    ≡ₚ map_to_list (extensions_ st).
Proof. apply merge_sort_Permutation. Qed.

(** X9. The array [OnGetExtensions] returns has exactly one element for each
    entry of the module table, carrying the name, the API description and
    the entry points of that module, each as [c_str()] hands it on (cut at
    its first NUL, if it has one); for an empty table it is empty. *)
Theorem GetExtensions_lists_the_registry (st : State) :
  (∀ entry, entry ∈ OnGetExtensions st
     ↔ ∃ k ext, extensions_ st !! k = Some ext
                ∧ entry = (as_c_string (name ext),
                           as_c_string (javascript_api ext),
                           as_c_string <$> entry_points ext))
  ∧ length (OnGetExtensions st) = size (extensions_ st).
Proof.
  unfold OnGetExtensions.
  destruct (decide (size (extensions_ st) = 0)) as [Hz|Hnz].
  - split; [|by rewrite Hz]. apply map_size_empty_inv in Hz.
    intros entry. split; [by intros ?%elem_of_nil|].
    intros (k & ext & He & _). by rewrite Hz, lookup_empty in He.
  - split.
    + intros entry. rewrite list_elem_of_fmap. split.
      * intros ([k ext] & -> & Hin). rewrite listing_walks_the_map in Hin.
        apply elem_of_map_to_list in Hin. eauto.
      * intros (k & ext & He & ->). exists (k, ext). split; [done|].
        rewrite listing_walks_the_map. by apply elem_of_map_to_list.
    + by rewrite length_fmap, listing_walks_the_map, length_map_to_list.
Qed.

(** X10. When the name of every module the loader produces is a C string (it
    holds no NUL), then after [Start] on a new server the names in the array
    that [OnGetExtensions] returns are in ascending order and no name occurs
    twice. *)
Theorem GetExtensions_names_ascend (env : Platform) (uuid : string)
    (paths : list string) :
  (∀ path i, Initialize env path = Some i →
     as_c_string (info_name i) = info_name i) →
  let names :=
    (λ entry : string * string * list string, entry.1.1)
      <$> OnGetExtensions (Start env paths (new_ExtensionServer uuid)).2 in
  Sorted String.le names ∧ NoDup names.
Proof.
  intros Hnames.
  destruct (Start_registry_ok env uuid paths) as [Hok _].
  revert Hok. generalize (Start env paths (new_ExtensionServer uuid)).2.
  intros st Hok names. subst names. unfold OnGetExtensions.
  destruct (decide (size (extensions_ st) = 0)); [split; constructor|].
  rewrite <- list_fmap_compose.
  assert (Hfst : (λ entry : string * string * list string, entry.1.1)
                   ∘ (λ kv : string * Extension,
                        (as_c_string (name kv.2),
                         as_c_string (javascript_api kv.2),
                         as_c_string <$> entry_points kv.2))
                 <$> merge_sort key_le (map_to_list (extensions_ st))
                 = (merge_sort key_le (map_to_list (extensions_ st))).*1).
  { apply Forall_fmap_ext_1, Forall_forall. intros [k ext] Hin. simpl.
    rewrite listing_walks_the_map in Hin. apply elem_of_map_to_list in Hin.
    unfold name. rewrite (Hnames _ _ (ok_loaded _ _ Hok _ _ Hin)).
    eapply ok_key; eauto. }
  rewrite Hfst. split.
  - apply (Sorted_fmap _ key_le); [done|].
    apply (@Sorted_merge_sort _ key_le _ key_le_total).
  - rewrite listing_walks_the_map. apply NoDup_fst_map_to_list.
Qed.

(** X11. No sequence of calls on instances changes the registry: the module
    table, the symbol set and so the answer of [OnGetExtensions] are the
    same after it as before. *)
Theorem calls_leave_the_registry_alone (env : Platform)
    (calls : list (Connection * MethodCall * Invocation)) (st : State) :
  extensions_ (serve env calls st) = extensions_ st
  ∧ extension_symbols_ (serve env calls st) = extension_symbols_ st
  ∧ OnGetExtensions (serve env calls st) = OnGetExtensions st.
Proof.
  destruct (serve_registry env calls st) as [Hexts Hsyms].
  split; [done|]. split; [done|]. unfold OnGetExtensions. by rewrite Hexts.
Qed.

(** ** Ids and answers *)

Lemma creations_cons (c : Connection * MethodCall * Invocation)
    (calls : list (Connection * MethodCall * Invocation)) :
  creations (c :: calls) = creations [c] + creations calls.
Proof.
  unfold creations. rewrite !bind_cons, !length_app. simpl. lia.
Qed.

Lemma HandleDBusMethod_draws (env : Platform) (connection : Connection)
    (call : MethodCall) (invocation : Invocation) (st : State) :
  uuids_drawn (HandleDBusMethod env connection call invocation st) =
    uuids_drawn st + creations [(connection, call, invocation)].
Proof.
  destruct call as [nm|target|target msg|target msg];
    unfold creations; simpl.
  - unfold OnCreateInstance. simpl.
    destruct (extensions_ st !! nm) as [ext|];
      [destruct (CreateInstance ext)|]; simpl; lia.
  - unfold OnDestroyInstance.
    destruct (instances_ st !! target); simpl; lia.
  - unfold OnSendSyncMessage, HandleSyncMessage.
    destruct (instances_ st !! target);
      rewrite ?invoke_all_events; simpl; lia.
  - unfold OnPostMessage, HandleMessage.
    destruct (instances_ st !! target);
      rewrite ?invoke_all_events; simpl; lia.
Qed.

(** X12. Each [CreateInstance] call draws one id from the generator, whether
    it succeeds or not, and no other call draws any: after a run of calls
    the generator has advanced by the number of [CreateInstance] calls in
    it. *)
Theorem ids_drawn_count_the_creations (env : Platform)
    (calls : list (Connection * MethodCall * Invocation)) (st : State) :
  uuids_drawn (serve env calls st) = uuids_drawn st + creations calls.
Proof.
  unfold serve. revert st.
  induction calls as [|[[connection call] invocation] calls IH];
    intros st; simpl; [unfold creations; simpl; lia|].
  rewrite IH, HandleDBusMethod_draws, (creations_cons _ calls). lia.
Qed.

(** X13. [OnCreateInstance] and [OnDestroyInstance] answer the caller exactly
    once, on the invocation of the call, whether they succeed or fail, and
    answer on no other invocation. *)
Theorem create_and_destroy_answer_once (env : Platform)
    (connection : Connection) (invocation : Invocation) (st : State) :
  (∀ extension_name, ∃ es e,
     trace (OnCreateInstance env connection extension_name invocation st)
       = trace st ++ es
     ∧ answers invocation es = [e]
     ∧ ∀ other, other ≠ invocation → answers other es = [])
  ∧ (∀ instance_id, ∃ es e,
       trace (OnDestroyInstance instance_id invocation st) = trace st ++ es
       ∧ answers invocation es = [e]
       ∧ ∀ other, other ≠ invocation → answers other es = []).
Proof.
  split.
  - intros nm. unfold OnCreateInstance. simpl.
    destruct (extensions_ st !! nm) as [ext|];
      [destruct (CreateInstance ext)|]; simpl;
      rewrite <- ?app_assoc; simpl; eexists _, _;
      (split; [reflexivity|]); unfold answers; simpl;
      rewrite decide_True by done; (split; [reflexivity|]);
      intros other Hne; by rewrite decide_False.
  - intros id. unfold OnDestroyInstance.
    destruct (instances_ st !! id); simpl;
      rewrite <- ?app_assoc; simpl; eexists _, _;
      (split; [reflexivity|]); unfold answers; simpl;
      rewrite decide_True by done; (split; [reflexivity|]);
      intros other Hne; by rewrite decide_False.
Qed.

(** ** Pushes and replies of an instance *)

Section Pushes.

Variable env : Platform.

Lemma signals_app (es1 es2 : list Event) :
  signals (es1 ++ es2) = signals es1 ++ signals es2.
Proof. unfold signals. apply bind_app. Qed.

Lemma posts_cons (c : Outcall) (cs : list Outcall) :
  posts (c :: cs)
    = match c with PostMessageToJS msg => [msg] | _ => [] end ++ posts cs.
Proof. unfold posts. by rewrite bind_cons. Qed.

Lemma sent_app (es1 es2 : list Event) :
  sent (es1 ++ es2) = sent es1 ++ sent es2.
Proof. unfold sent. apply bind_app. Qed.

Lemma sent_of_outcalls (instance : ExtensionInstance) (conn : nat)
    (id : string) (cs : list Outcall) :
  post_message_callback_ instance = Some (Some conn, id) →
  g_dbus_connection_is_closed env conn = false →
  sent (outcalls_events env instance cs)
    = (λ m, SendSignal conn (kDBusInterfaceNameForExtension env)
              (kSignalOnMessageToJS env) (as_c_string id) (as_c_string m))
        <$> posts cs.
Proof.
  intros Hcb Hopen. revert instance Hcb.
  induction cs as [|c cs IH]; intros instance Hcb; [done|].
  rewrite posts_cons, fmap_app. cbn [outcalls_events].
  rewrite sent_app, IH by (by destruct c).
  f_equal. destruct c as [m|r]; simpl.
  - by rewrite Hcb, Hopen.
  - by destruct (send_sync_reply_callback_ instance).
Qed.

Lemma no_signal_when_closed (instance : ExtensionInstance)
    (connection : Connection) (id : string) (cs : list Outcall) :
  post_message_callback_ instance = Some (connection, id) →
  (∀ conn, connection = Some conn →
     g_dbus_connection_is_closed env conn = true) →
  signals (outcalls_events env instance cs) = []
  ∧ ∀ m, PostMessageToJS m ∈ cs →
      Logged ERROR "Client connection is closed already."
        ∈ outcalls_events env instance cs.
Proof.
  intros Hcb Hclosed. revert instance Hcb.
  induction cs as [|c cs IH]; intros instance Hcb.
  { split; [done|]. by intros m ?%elem_of_nil. }
  destruct (IH (after_outcall instance c)) as [IHs IHl]; [by destruct c|].
  split.
  - simpl. rewrite signals_app, IHs, app_nil_r.
    destruct c as [m|r]; simpl.
    + rewrite Hcb. destruct connection as [conn|]; [|done].
      by rewrite (Hclosed conn).
    + by destruct (send_sync_reply_callback_ instance).
  - intros m [<-|Hin]%elem_of_cons; simpl; apply elem_of_app.
    + left. rewrite Hcb. destruct connection as [conn|]; [|left].
      rewrite (Hclosed conn) by done. left.
    + right. by apply (IHl m).
Qed.

End Pushes.

(** X14. On a server that started without instances, a message posted to a
    live instance whose connection is open makes the server send one signal
    for each message the native handler pushes, in the order it pushes
    them, and no other signal: each is the signal [kSignalOnMessageToJS] of
    the interface [kDBusInterfaceNameForExtension], goes to the connection
    bound into the instance when it was created, and carries the id of the
    instance and the pushed message, both as [c_str()] hands them on. *)
Theorem pushes_arrive_in_order_under_own_id (env : Platform) (st0 : State)
    (calls : list (Connection * MethodCall * Invocation)) (id : string)
    (inst : ExtensionInstance) (conn : nat) (msg : string) :
  instances_ st0 = ∅ →
  let st := serve env calls st0 in
  instances_ st !! id = Some inst →
  fst <$> post_message_callback_ inst = Some (Some conn) →
  g_dbus_connection_is_closed env conn = false →
  ∃ es, trace (OnPostMessage env id msg st) = trace st ++ es
        ∧ sent es =
            (λ m, SendSignal conn (kDBusInterfaceNameForExtension env)
                    (kSignalOnMessageToJS env) (as_c_string id)
                    (as_c_string m))
              <$> posts (handle_msg (logic inst) (received inst) msg).
Proof.
  intros Hempty st Hlive Hconn Hopen.
  assert (Hok : instances_ok env st).
  { apply serve_ok. split; intros i x; rewrite Hempty, lookup_empty; done. }
  pose proof (ok_bound _ _ Hok _ _ Hlive) as Hid.
  destruct (post_message_callback_ inst) as [[c id']|] eqn:Hcb; [|done].
  simpl in Hconn, Hid. injection Hconn as ->. injection Hid as ->.
  rewrite (OnPostMessage_live env _ _ _ _ Hlive).
  eexists. split; [reflexivity|].
  by apply (sent_of_outcalls env _ conn).
Qed.

(** X15. When the connection an instance was created on is null or closed,
    a message posted to the instance makes the server send no signal: each
    push of the native handler is dropped with the error line "Client
    connection is closed already." *)
Theorem pushes_are_dropped_when_the_peer_is_gone (env : Platform)
    (st : State) (id msg : string) (inst : ExtensionInstance)
    (connection : Connection) (bound : string) :
  instances_ st !! id = Some inst →
  post_message_callback_ inst = Some (connection, bound) →
  (∀ conn, connection = Some conn →
     g_dbus_connection_is_closed env conn = true) →
  ∃ es, trace (OnPostMessage env id msg st) = trace st ++ es
        ∧ signals es = []
        ∧ ∀ m, PostMessageToJS m
                 ∈ handle_msg (logic inst) (received inst) msg →
            Logged ERROR "Client connection is closed already." ∈ es.
Proof.
  intros Hlive Hcb Hclosed.
  rewrite (OnPostMessage_live env _ _ _ _ Hlive).
  eexists. split; [reflexivity|].
  by apply (no_signal_when_closed env _ connection bound).
Qed.

(** X16. A synchronous message whose native handler does not reply at once
    leaves the call unanswered: the handler of the call puts nothing on the
    trace.  When the native code replies later, while it handles a posted
    message, the reply is returned, as [c_str()] hands it on, on the
    invocation of that pending synchronous call. *)
Theorem deferred_reply_completes_the_pending_call (env : Platform)
    (st : State) (id msg later : string) (invocation : Invocation)
    (inst : ExtensionInstance) (reply : string) :
  instances_ st !! id = Some inst →
  handle_sync_msg (logic inst) (received inst) msg = [] →
  handle_msg (logic inst) (received inst ++ [(ToHandleSyncMessage, msg)])
    later = [SyncReplyToJS reply] →
  let st1 := OnSendSyncMessage env id msg invocation st in
  trace st1 = trace st
  ∧ trace (OnPostMessage env id later st1)
      = trace st ++ [ReturnValue invocation (as_c_string reply)].
Proof.
  intros Hlive Hsilent Hlater st1.
  assert (Hst1 : st1 =
    set_instances
      (<[id := deliver ToHandleSyncMessage msg
                 (SetSendSyncReplyCallback invocation inst)]>) st).
  { unfold st1. rewrite (OnSendSyncMessage_live env _ _ _ _ _ Hlive).
    rewrite Hsilent. simpl. by rewrite emit_all_nil. }
  rewrite Hst1. split; [done|].
  rewrite (OnPostMessage_live env id later
             (deliver ToHandleSyncMessage msg
                (SetSendSyncReplyCallback invocation inst)))
    by (simpl; apply lookup_insert_eq).
  simpl. by rewrite Hlater.
Qed.

(** X17. A call addressed to one instance never touches another: posting or
    sending to, or destroying, an id leaves the entry of every other id in
    the instance table exactly as it was. *)
Theorem calls_touch_only_their_instance (env : Platform) (st : State)
    (id other msg : string) (invocation : Invocation) :
  other ≠ id →
  instances_ (OnPostMessage env other msg st) !! id = instances_ st !! id
  ∧ instances_ (OnSendSyncMessage env other msg invocation st) !! id
      = instances_ st !! id
  ∧ instances_ (OnDestroyInstance other invocation st) !! id
      = instances_ st !! id.
Proof.
  intros Hne. split; [|split].
  - unfold OnPostMessage, HandleMessage.
    destruct (instances_ st !! other); [|done].
    rewrite invoke_all_events. simpl. by rewrite lookup_insert_ne.
  - unfold OnSendSyncMessage, HandleSyncMessage.
    destruct (instances_ st !! other); [|done].
    rewrite invoke_all_events. simpl. by rewrite !lookup_insert_ne.
  - unfold OnDestroyInstance.
    destruct (instances_ st !! other); [|done].
    simpl. by rewrite lookup_delete_ne.
Qed.

(** ** What an instance is handed *)

Section Deliveries.

Variable env : Platform.

Hypothesis never_repeats :
  ∀ m n, uuid_source env m = uuid_source env n → m = n.

Lemma addressed_cons (id : string)
    (c : Connection * MethodCall * Invocation)
    (calls : list (Connection * MethodCall * Invocation)) :
  addressed id (c :: calls) = addressed id [c] ++ addressed id calls.
Proof. unfold addressed. rewrite !bind_cons. simpl. by rewrite app_nil_r. Qed.

Lemma HandleDBusMethod_delivers (connection : Connection)
    (call : MethodCall) (invocation : Invocation) (id : string)
    (inst : ExtensionInstance) (st : State) :
  instances_ok env st → instances_ st !! id = Some inst →
  call ≠ kMethodDestroyInstance id →
  ∃ inst',
    instances_ (HandleDBusMethod env connection call invocation st) !! id
      = Some inst'
    ∧ received inst'
        = received inst ++ addressed id [(connection, call, invocation)]
    ∧ logic inst' = logic inst.
Proof.
  intros Hok Hlive Hcall. unfold addressed. rewrite bind_cons. simpl.
  destruct call as [nm|target|target msg|target msg]; simpl.
  - exists inst. rewrite app_nil_r. split; [|done].
    unfold OnCreateInstance. simpl.
    destruct (extensions_ st !! nm) as [ext|]; [|done].
    destruct (CreateInstance ext); [|done]. simpl.
    rewrite lookup_insert_ne; [done|]. intros Heq.
    pose proof (next_id_not_live env never_repeats st Hok) as Hfree.
    rewrite Heq in Hfree. congruence.
  - exists inst. rewrite app_nil_r. split; [|done].
    unfold OnDestroyInstance.
    destruct (instances_ st !! target) eqn:Ht; [|done]. simpl.
    rewrite lookup_delete_ne; [done|]. congruence.
  - unfold OnSendSyncMessage, HandleSyncMessage.
    destruct (decide (target = id)) as [->|Hne].
    + rewrite Hlive, invoke_all_events. simpl.
      rewrite lookup_insert_eq. eexists. split; [done|].
      by rewrite outcalls_instance_received, outcalls_instance_logic.
    + exists inst. rewrite app_nil_r. split; [|done].
      destruct (instances_ st !! target); [|done].
      rewrite invoke_all_events. simpl. by rewrite !lookup_insert_ne.
  - unfold OnPostMessage, HandleMessage.
    destruct (decide (target = id)) as [->|Hne].
    + rewrite Hlive, invoke_all_events. simpl.
      rewrite lookup_insert_eq. eexists. split; [done|].
      by rewrite outcalls_instance_received, outcalls_instance_logic.
    + exists inst. rewrite app_nil_r. split; [|done].
      destruct (instances_ st !! target); [|done].
      rewrite invoke_all_events. simpl. by rewrite lookup_insert_ne.
Qed.

Lemma serve_delivers (calls : list (Connection * MethodCall * Invocation))
    (id : string) (inst : ExtensionInstance) (st : State) :
  instances_ok env st → instances_ st !! id = Some inst →
  (∀ c i, (c, kMethodDestroyInstance id, i) ∉ calls) →
  ∃ inst',
    instances_ (serve env calls st) !! id = Some inst'
    ∧ received inst' = received inst ++ addressed id calls
    ∧ logic inst' = logic inst.
Proof.
  unfold serve. revert st inst.
  induction calls as [|[[connection call] invocation] calls IH];
    intros st inst Hok Hlive Hkeep.
  - exists inst. simpl. by rewrite app_nil_r.
  - rewrite (addressed_cons id _ calls). cbn [foldl].
    destruct (HandleDBusMethod_delivers connection call invocation id inst st)
      as (inst1 & Hlive1 & Hrec1 & Hlogic1); [done..| |].
    { intros ->. apply (Hkeep connection invocation). left. }
    destruct (IH _ inst1 (HandleDBusMethod_ok env _ _ _ _ Hok) Hlive1)
      as (inst' & Hlive' & Hrec' & Hlogic').
    { intros c i Hin. apply (Hkeep c i). by right. }
    exists inst'. split; [done|]. split; [|congruence].
    by rewrite Hrec', Hrec1, app_assoc.
Qed.

End Deliveries.

(** X18. Let the id generator never repeat itself and the server start
    without instances.  As long as an instance is not destroyed, its native
    code is handed exactly the posted and synchronous messages that were
    addressed to its id, in the order of the calls, whatever else the calls
    in between create, destroy or address. *)
Theorem messages_reach_the_instance_in_order (env : Platform) (st0 : State)
    (before calls : list (Connection * MethodCall * Invocation))
    (id : string) (inst : ExtensionInstance) :
  (∀ m n, uuid_source env m = uuid_source env n → m = n) →
  instances_ st0 = ∅ →
  let st := serve env before st0 in
  instances_ st !! id = Some inst →
  (∀ c i, (c, kMethodDestroyInstance id, i) ∉ calls) →
  ∃ inst',
    instances_ (serve env calls st) !! id = Some inst'
    ∧ received inst' = received inst ++ addressed id calls
    ∧ logic inst' = logic inst.
Proof.
  intros Hinj Hempty st Hlive Hkeep.
  apply (serve_delivers env Hinj); [|done..].
  apply serve_ok. split; intros i x; rewrite Hempty, lookup_empty; done.
Qed.

(** ** The runtime variable *)

Lemma c_str_no_nul (bytes : list Ascii.ascii) : Ascii.zero ∉ c_str bytes.
Proof.
  induction bytes as [|b bytes IH]; simpl; [by intros ?%elem_of_nil|].
  destruct (decide (b = Ascii.zero)); [by intros ?%elem_of_nil|].
  intros [?|?]%elem_of_cons; [congruence | done].
Qed.

Lemma c_str_until_nul (l rest : list Ascii.ascii) :
  Ascii.zero ∉ l → c_str (l ++ Ascii.zero :: rest) = l.
Proof.
  induction l as [|b l IH]; simpl; intros Hl.
  - by destruct (decide (Ascii.zero = Ascii.zero)).
  - destruct (decide (b = Ascii.zero)) as [->|_].
    + destruct Hl. left.
    + f_equal. apply IH. intros ?. apply Hl. by right.
Qed.

Lemma strncpy_written (dest src : list Ascii.ascii) (n : nat) :
  length (take n (c_str src ++ replicate n Ascii.zero)) = n.
Proof. rewrite length_take, length_app, length_replicate. lia. Qed.

Lemma strncpy_rest (dest src : list Ascii.ascii) (n : nat) :
  n ≤ length dest →
  length (strncpy dest src n) = length dest
  ∧ drop n (strncpy dest src n) = drop n dest.
Proof.
  intros Hn. unfold strncpy. split.
  - rewrite length_app, (strncpy_written dest), length_drop. lia.
  - apply drop_app_length'. by rewrite (strncpy_written dest).
Qed.

(** X19. When the Application answers with a value that is shorter than
    [value_len], and [value_len] bytes fit the caller's buffer,
    [GetRuntimeVariable] leaves in the buffer a C string that reads back as
    that value; the buffer keeps its size and its bytes from [value_len]
    on. *)
Theorem runtime_variable_reads_back (env : Platform)
    (kMethodGetRuntimeVariable : string)
    (application : string → option string) (key v : string)
    (value : list Ascii.ascii) (value_len : nat) (st : State) :
  application key = Some v →
  length (c_str (String.list_ascii_of_string v)) < value_len →
  value_len ≤ length value →
  let value' :=
    (GetRuntimeVariable env kMethodGetRuntimeVariable application key value
       value_len st).1 in
  c_str value' = c_str (String.list_ascii_of_string v)
  ∧ length value' = length value
  ∧ drop value_len value' = drop value_len value.
Proof.
  intros Hv Hshort Hfit value'. subst value'.
  unfold GetRuntimeVariable. rewrite Hv. simpl.
  split; [|by apply strncpy_rest].
  unfold strncpy. set (cs := c_str (String.list_ascii_of_string v)) in *.
  rewrite take_app_ge by lia. rewrite take_replicate.
  replace (min (value_len - length cs) value_len)
    with (S (value_len - length cs - 1)) by lia.
  rewrite replicate_S, <- app_assoc. simpl.
  apply c_str_until_nul, c_str_no_nul.
Qed.

(** X20. When the value the Application answers with has [value_len] bytes
    or more, [GetRuntimeVariable] writes its first [value_len] bytes and no
    terminating NUL: the first [value_len] bytes of the buffer hold no NUL,
    and the bytes from [value_len] on are the caller's old ones. *)
Theorem runtime_variable_is_cut_without_terminator (env : Platform)
    (kMethodGetRuntimeVariable : string)
    (application : string → option string) (key v : string)
    (value : list Ascii.ascii) (value_len : nat) (st : State) :
  application key = Some v →
  value_len ≤ length (c_str (String.list_ascii_of_string v)) →
  value_len ≤ length value →
  let value' :=
    (GetRuntimeVariable env kMethodGetRuntimeVariable application key value
       value_len st).1 in
  take value_len value'
    = take value_len (c_str (String.list_ascii_of_string v))
  ∧ Ascii.zero ∉ take value_len value'
  ∧ drop value_len value' = drop value_len value.
Proof.
  intros Hv Hlong Hfit value'. subst value'.
  unfold GetRuntimeVariable. rewrite Hv. simpl.
  assert (Htake : take value_len
                    (strncpy value (String.list_ascii_of_string v) value_len)
                  = take value_len (c_str (String.list_ascii_of_string v))).
  { unfold strncpy. rewrite take_app_length'.
    - by apply take_app_le.
    - by rewrite (strncpy_written value). }
  split; [done|]. split; [|by apply strncpy_rest].
  rewrite Htake. intros Hin. apply elem_of_take in Hin as (i & Hi & _).
  apply list_elem_of_lookup_2 in Hi. by apply c_str_no_nul in Hi.
Qed.

(** X21. When the call to the Application fails, [GetRuntimeVariable] does
    not write to the caller's buffer at all: the buffer is returned as it
    was, and the only effects are the call and the error line that names
    the key. *)
Theorem runtime_variable_failure_leaves_the_buffer (env : Platform)
    (kMethodGetRuntimeVariable : string)
    (application : string → option string) (key : string)
    (value : list Ascii.ascii) (value_len : nat) (st : State) :
  application key = None →
  GetRuntimeVariable env kMethodGetRuntimeVariable application key value
    value_len st
  = (value,
     emit_all
       [ClientCall (kDBusInterfaceNameForApplication env)
          kMethodGetRuntimeVariable key;
        Logged ERROR
          ("Failed to get runtime variable from Application. (" +:+ key
             +:+ ")")]
       st).
Proof.
  intros Hv. unfold GetRuntimeVariable. rewrite Hv.
  unfold emit_all, LOGGER, emit; simpl. by rewrite <- app_assoc.
Qed.

(** ** The further properties on concrete servers *)

(** [echo] and [mute] are both registered on [echo_server]; the entry point
    of [echo] is none of [mute]. *)
Lemma registered_entry_points_are_disjoint_witness :
  let st :=
    (Start echo_platform ["/opt/app/libmute.so"]
       (new_ExtensionServer "app")).2 in
  let e1 := {| library_path_ :=
                 "/usr/lib/tizen-extensions-crosswalk/libecho.so";
               info := module "echo" ["echo.ping"] |} in
  let e2 := {| library_path_ := "/opt/app/libmute.so";
               info := barren_module "mute" |} in
  (extensions_ st !! "echo" = Some e1 ∧ extensions_ st !! "mute" = Some e2
   ∧ e1 ≠ e2 ∧ "echo.ping" ∈ entry_points e1)
  ∧ "echo.ping" ∉ entry_points e2.
Proof.
  intros st e1 e2.
  assert (H1 : extensions_ st !! "echo" = Some e1) by (vm_compute; reflexivity).
  assert (H2 : extensions_ st !! "mute" = Some e2) by (vm_compute; reflexivity).
  assert (H3 : e1 ≠ e2) by (intros [=]).
  assert (H4 : "echo.ping" ∈ entry_points e1) by apply list_elem_of_here.
  split; [done|].
  exact (registered_entry_points_are_disjoint echo_platform "app"
           ["/opt/app/libmute.so"] "echo" "mute" e1 e2 "echo.ping"
           H1 H2 H3 H4).
Defined.

(** Offering [libecho.so] of the system directory a second time. *)
Lemma registered_library_is_turned_away_again_witness :
  let st :=
    (Start echo_platform ["/opt/app/libmute.so"]
       (new_ExtensionServer "app")).2 in
  let ext := {| library_path_ :=
                  "/usr/lib/tizen-extensions-crosswalk/libecho.so";
                info := module "echo" ["echo.ping"] |} in
  extensions_ st !! "echo" = Some ext
  ∧ RegisterExtension echo_platform (library_path_ ext) st =
      LOGGER WARN
        ("Ignoring extension with name already registred. '" +:+ name ext
           +:+ "'") st.
Proof.
  intros st ext.
  assert (H : extensions_ st !! "echo" = Some ext)
    by (vm_compute; reflexivity).
  split; [exact H|].
  exact (registered_library_is_turned_away_again echo_platform "app"
           ["/opt/app/libmute.so"] "echo" ext H).
Defined.

(** [mute] on [echo_server] comes from the caller's path, which exists. *)
Lemma registered_modules_were_discovered_witness :
  let st :=
    (Start echo_platform ["/opt/app/libmute.so"]
       (new_ExtensionServer "app")).2 in
  let ext := {| library_path_ := "/opt/app/libmute.so";
                info := barren_module "mute" |} in
  extensions_ st !! "mute" = Some ext
  ∧ name ext = "mute"
  ∧ Initialize echo_platform (library_path_ ext) = Some (info ext)
  ∧ discovered echo_platform ["/opt/app/libmute.so"] (library_path_ ext).
Proof.
  intros st ext.
  assert (H : extensions_ st !! "mute" = Some ext)
    by (vm_compute; reflexivity).
  split; [exact H|].
  exact (registered_modules_were_discovered echo_platform "app"
           ["/opt/app/libmute.so"] "mute" ext H).
Defined.

(** [Start] on [echo_platform], which is connected. *)
Lemma Start_announces_last_witness :
  let st := new_ExtensionServer "app" in
  ConnectByName echo_platform
    (app_uuid_ st +:+ "." +:+ kDBusNameForApplication echo_platform) = true
  ∧ instances_ (Start echo_platform [] st).2 = instances_ st
  ∧ uuids_drawn (Start echo_platform [] st).2 = uuids_drawn st.
Proof.
  intros st.
  assert (H : ConnectByName echo_platform
                (app_uuid_ st +:+ "." +:+ kDBusNameForApplication
                                             echo_platform) = true)
    by reflexivity.
  split; [exact H|].
  destruct (Start_announces_last echo_platform [] st H) as (Hi & Hu & _).
  by split.
Defined.

(** A process that serves one creation and the destruction of its
    instance. *)
Lemma instances_are_deleted_only_on_request_witness :
  let inbound := [(Some 0, kMethodCreateInstance "echo", 1);
                  (Some 0, kMethodDestroyInstance "id", 2)] in
  DeleteInstance "id" ∈ (StartExtensionProcess echo_platform ["app"] inbound).2
  ∧ ∃ connection invocation,
      (connection, kMethodDestroyInstance "id", invocation) ∈ inbound.
Proof.
  intros inbound.
  assert (H : DeleteInstance "id"
                ∈ (StartExtensionProcess echo_platform ["app"] inbound).2).
  { apply list_elem_of_In. vm_compute. auto 20. }
  split; [exact H|].
  exact (instances_are_deleted_only_on_request echo_platform ["app"] inbound
           "id" H).
Defined.

(** The first message posted to a [slow] instance on an open connection
    makes two signals to connection 0, ["m1"] then ["m2"], under the id of
    the instance. *)
Lemma pushes_arrive_in_order_under_own_id_witness :
  let calls := [(Some 0, kMethodCreateInstance "slow", 1)] in
  let st := serve slow_platform calls slow_server in
  let inst := slow_instance (Some 0) in
  (instances_ slow_server = ∅
   ∧ instances_ st !! "id" = Some inst
   ∧ fst <$> post_message_callback_ inst = Some (Some 0)
   ∧ g_dbus_connection_is_closed slow_platform 0 = false)
  ∧ ∃ es, trace (OnPostMessage slow_platform "id" "go" st) = trace st ++ es
          ∧ sent es =
              [SendSignal 0 "org.tizen.wrt.Extension" "OnMessageToJS" "id"
                 "m1";
               SendSignal 0 "org.tizen.wrt.Extension" "OnMessageToJS" "id"
                 "m2"].
Proof.
  intros calls st inst.
  assert (H1 : instances_ slow_server = ∅) by (vm_compute; reflexivity).
  assert (H2 : instances_ st !! "id" = Some inst)
    by (vm_compute; reflexivity).
  assert (H3 : fst <$> post_message_callback_ inst = Some (Some 0))
    by reflexivity.
  assert (H4 : g_dbus_connection_is_closed slow_platform 0 = false)
    by reflexivity.
  split; [done|].
  exact (pushes_arrive_in_order_under_own_id slow_platform slow_server calls
           "id" inst 0 "go" H1 H2 H3 H4).
Defined.

(** The same instance created by a caller without a connection: its pushes
    are dropped. *)
Lemma pushes_are_dropped_when_the_peer_is_gone_witness :
  let st := OnCreateInstance slow_platform None "slow" 1 slow_server in
  let inst := slow_instance None in
  (instances_ st !! "id" = Some inst
   ∧ post_message_callback_ inst = Some (None, "id"))
  ∧ ∃ es, trace (OnPostMessage slow_platform "id" "go" st) = trace st ++ es
          ∧ signals es = []
          ∧ ∀ m, PostMessageToJS m
                   ∈ handle_msg (logic inst) (received inst) "go" →
              Logged ERROR "Client connection is closed already." ∈ es.
Proof.
  intros st inst.
  assert (H1 : instances_ st !! "id" = Some inst)
    by (vm_compute; reflexivity).
  assert (H2 : post_message_callback_ inst = Some (None, "id"))
    by reflexivity.
  assert (H3 : ∀ conn : nat, @None nat = Some conn →
            g_dbus_connection_is_closed slow_platform conn = true)
    by (intros conn [=]).
  split; [done|].
  exact (pushes_are_dropped_when_the_peer_is_gone slow_platform st "id" "go"
           inst None "id" H1 H2 H3).
Defined.

(** ["ask"] is left pending on invocation 2; the reply ["late"] that the
    native code gives while handling the posted ["tick"] goes to
    invocation 2. *)
Lemma deferred_reply_completes_the_pending_call_witness :
  let st := OnCreateInstance slow_platform (Some 0) "slow" 1 slow_server in
  let inst := slow_instance (Some 0) in
  let st1 := OnSendSyncMessage slow_platform "id" "ask" 2 st in
  instances_ st !! "id" = Some inst
  ∧ trace st1 = trace st
  ∧ trace (OnPostMessage slow_platform "id" "tick" st1)
      = trace st ++ [ReturnValue 2 "late"].
Proof.
  intros st inst st1.
  assert (H1 : instances_ st !! "id" = Some inst)
    by (vm_compute; reflexivity).
  split; [exact H1|].
  exact (deferred_reply_completes_the_pending_call slow_platform st "id"
           "ask" "tick" 2 inst "late" H1 eq_refl eq_refl).
Defined.

(** Calls for the id ["zz"] leave the instance ["id"] of [echo_live] as it
    is. *)
Lemma calls_touch_only_their_instance_witness :
  "zz" ≠ "id"
  ∧ instances_ (OnPostMessage echo_platform "zz" "x" echo_live) !! "id"
      = instances_ echo_live !! "id".
Proof.
  assert (H : "zz" ≠ "id") by (intros [=]).
  split; [exact H|].
  exact (proj1 (calls_touch_only_their_instance echo_platform echo_live "id"
                  "zz" "x" 0 H)).
Defined.

(** Messages ["a"] and ["b"] for the first instance, with another creation
    and a message for someone else in between. *)
Lemma messages_reach_the_instance_in_order_witness :
  let before := [(Some 0, kMethodCreateInstance "echo", 1)] in
  let calls := [(Some 0, kMethodPostMessage "id" "a", 2);
                (Some 0, kMethodCreateInstance "echo", 3);
                (Some 0, kMethodPostMessage "uid" "other", 4);
                (Some 0, kMethodSendSyncMessage "id" "b", 5)] in
  let st := serve echo_platform before echo_server in
  (instances_ echo_server = ∅ ∧ instances_ st !! "id" = Some echo_instance)
  ∧ ∃ inst',
      instances_ (serve echo_platform calls st) !! "id" = Some inst'
      ∧ received inst'
          = received echo_instance ++ addressed "id" calls
      ∧ logic inst' = logic echo_instance.
Proof.
  intros before calls st.
  assert (H1 : ∀ m n,
            uuid_source echo_platform m = uuid_source echo_platform n → m = n)
    by exact unary_id_inj.
  assert (H2 : instances_ echo_server = ∅) by (vm_compute; reflexivity).
  assert (H3 : instances_ st !! "id" = Some echo_instance)
    by (vm_compute; reflexivity).
  assert (H4 : ∀ c i, (c, kMethodDestroyInstance "id", i) ∉ calls).
  { intros c i Hin. unfold calls in Hin.
    rewrite !elem_of_cons, elem_of_nil in Hin.
    destruct Hin as [[=]|[[=]|[[=]|[[=]|[]]]]]. }
  split; [done|].
  exact (messages_reach_the_instance_in_order echo_platform echo_server
           before calls "id" echo_instance H1 H2 H3 H4).
Defined.

(** The value ["wrt"] in a buffer of eight bytes. *)
Lemma runtime_variable_reads_back_witness :
  let application := λ _ : string, Some "wrt" in
  let value := String.list_ascii_of_string "????????" in
  let value' :=
    (GetRuntimeVariable echo_platform "GetRuntimeVariable" application
       "runtime_name" value 8 (new_ExtensionServer "app")).1 in
  (length (c_str (String.list_ascii_of_string "wrt")) < 8
   ∧ 8 ≤ length value)
  ∧ c_str value' = c_str (String.list_ascii_of_string "wrt")
  ∧ length value' = length value
  ∧ drop 8 value' = drop 8 value.
Proof.
  intros application value value'.
  assert (H1 : length (c_str (String.list_ascii_of_string "wrt")) < 8)
    by (simpl; lia).
  assert (H2 : 8 ≤ length value) by (simpl; lia).
  split; [done|].
  exact (runtime_variable_reads_back echo_platform "GetRuntimeVariable"
           application "runtime_name" "wrt" value 8
           (new_ExtensionServer "app") eq_refl H1 H2).
Defined.

(** The value ["wrt"] with room for two bytes only. *)
Lemma runtime_variable_is_cut_without_terminator_witness :
  let application := λ _ : string, Some "wrt" in
  let value := String.list_ascii_of_string "????????" in
  let value' :=
    (GetRuntimeVariable echo_platform "GetRuntimeVariable" application
       "runtime_name" value 2 (new_ExtensionServer "app")).1 in
  (2 ≤ length (c_str (String.list_ascii_of_string "wrt"))
   ∧ 2 ≤ length value)
  ∧ take 2 value' = take 2 (c_str (String.list_ascii_of_string "wrt"))
  ∧ Ascii.zero ∉ take 2 value'
  ∧ drop 2 value' = drop 2 value.
Proof.
  intros application value value'.
  assert (H1 : 2 ≤ length (c_str (String.list_ascii_of_string "wrt")))
    by (simpl; lia).
  assert (H2 : 2 ≤ length value) by (simpl; lia).
  split; [done|].
  exact (runtime_variable_is_cut_without_terminator echo_platform
           "GetRuntimeVariable" application "runtime_name" "wrt" value 2
           (new_ExtensionServer "app") eq_refl H1 H2).
Defined.

(** An Application that does not answer. *)
Lemma runtime_variable_failure_leaves_the_buffer_witness :
  let application := λ _ : string, @None string in
  let value := String.list_ascii_of_string "????????" in
  (GetRuntimeVariable echo_platform "GetRuntimeVariable" application
     "runtime_name" value 8 (new_ExtensionServer "app")).1 = value.
Proof.
  intros application value.
  by rewrite (runtime_variable_failure_leaves_the_buffer echo_platform
                "GetRuntimeVariable" application "runtime_name" value 8
                (new_ExtensionServer "app") eq_refl).
Defined.

(** ** First come, first served *)

(** X22. A library that loads at a moment when its name and all its entry
    points are free is registered under its name, and no library that is
    offered afterwards displaces it. *)
Theorem admitted_module_is_never_displaced (env : Platform) (uuid : string)
    (before after : list string) (path : string) (i : ModuleInfo) :
  let st := foldl (λ st path, RegisterExtension env path st)
              (new_ExtensionServer uuid) before in
  Initialize env path = Some i →
  info_name i ∉ extension_symbols_ st →
  (∀ ep, ep ∈ info_entry_points i → ep ∉ extension_symbols_ st) →
  extensions_
    (foldl (λ st path, RegisterExtension env path st)
       (new_ExtensionServer uuid) (before ++ path :: after))
    !! info_name i
  = Some {| library_path_ := path; info := i |}.
Proof.
  intros st Hi Hname Heps. rewrite foldl_app. fold st. cbn [foldl].
  assert (Hok : registry_ok env st)
    by apply register_each_ok, new_ExtensionServer_ok.
  apply register_each_keeps; [by apply RegisterExtension_ok|].
  destruct (RegisterExtension_admission env path st)
    as [Hn _|i' text Hi' Hcol _|i' Hi' _ _ Hexts _ _ _ _].
  - congruence.
  - assert (i' = i) as -> by congruence.
    destruct Hcol as [Hin|(ep & Hep & Hin)]; [done|]. by destruct (Heps ep).
  - assert (i' = i) as -> by congruence.
    by rewrite Hexts, lookup_insert_eq.
Qed.

(** X23. Caller paths that do not exist are passed over without a trace:
    [Start] with such paths does exactly what [Start] without paths does. *)
Theorem Start_skips_paths_that_do_not_exist (env : Platform)
    (paths : list string) (st : State) :
  (∀ path, path ∈ paths → Exists env path = false) →
  Start env paths st = Start env [] st.
Proof.
  intros Hmissing. unfold Start. destruct (negb _); [done|].
  assert (Hskip : ∀ st',
    foldl (λ st path, if Exists env path then RegisterExtension env path st
                      else st) st' paths = st').
  { induction paths as [|p paths IH]; intros st'; [done|]. simpl.
    rewrite (Hmissing p) by left. apply IH. intros q Hq. apply Hmissing.
    by right. }
  by rewrite Hskip.
Qed.

(** The caller's [libsecond.so] is offered between the two system libraries
    and keeps the name when the system library of that name comes. *)
Lemma admitted_module_is_never_displaced_witness :
  let before := ["/usr/lib/tizen-extensions-crosswalk/libfirst.so"] in
  let after := ["/usr/lib/tizen-extensions-crosswalk/libsecond.so"] in
  let i := module "second" [] in
  let st := foldl (λ st path, RegisterExtension clash_platform path st)
              (new_ExtensionServer "app") before in
  (Initialize clash_platform "/opt/app/libsecond.so" = Some i
   ∧ info_name i ∉ extension_symbols_ st)
  ∧ extensions_
      (foldl (λ st path, RegisterExtension clash_platform path st)
         (new_ExtensionServer "app")
         (before ++ "/opt/app/libsecond.so" :: after))
      !! info_name i
    = Some {| library_path_ := "/opt/app/libsecond.so"; info := i |}.
Proof.
  intros before after i st.
  assert (H1 : Initialize clash_platform "/opt/app/libsecond.so" = Some i)
    by reflexivity.
  assert (H2 : info_name i ∉ extension_symbols_ st) by compute_done.
  assert (H3 : ∀ ep, ep ∈ info_entry_points i → ep ∉ extension_symbols_ st)
    by (intros ep Hep; by apply elem_of_nil in Hep).
  split; [done|].
  exact (admitted_module_is_never_displaced clash_platform "app" before after
           "/opt/app/libsecond.so" i H1 H2 H3).
Defined.

(** A caller path under which there is no file. *)
Lemma Start_skips_paths_that_do_not_exist_witness :
  Exists echo_platform "/nowhere/libx.so" = false
  ∧ Start echo_platform ["/nowhere/libx.so"] (new_ExtensionServer "app")
    = Start echo_platform [] (new_ExtensionServer "app").
Proof.
  assert (H : ∀ path, path ∈ ["/nowhere/libx.so"] →
            Exists echo_platform path = false).
  { intros path Hin. apply list_elem_of_singleton in Hin as ->. reflexivity. }
  split; [reflexivity|].
  exact (Start_skips_paths_that_do_not_exist echo_platform
           ["/nowhere/libx.so"] (new_ExtensionServer "app") H).
Defined.

(** The names on [echo_platform] are C strings; the listing of [echo_server]
    names [echo] before [mute]. *)
Lemma GetExtensions_names_ascend_witness :
  let names :=
    (λ entry : string * string * list string, entry.1.1)
      <$> OnGetExtensions
            (Start echo_platform ["/opt/app/libmute.so"]
               (new_ExtensionServer "app")).2 in
  (∀ path i, Initialize echo_platform path = Some i →
     as_c_string (info_name i) = info_name i)
  ∧ Sorted String.le names ∧ NoDup names.
Proof.
  intros names.
  assert (H : ∀ path i, Initialize echo_platform path = Some i →
            as_c_string (info_name i) = info_name i).
  { intros path i Hi. unfold echo_platform, platform_of in Hi. simpl in Hi.
    repeat case_decide; simplify_eq; reflexivity. }
  split; [exact H|].
  exact (GetExtensions_names_ascend echo_platform "app"
           ["/opt/app/libmute.so"] H).
Defined.

(** ** Strings that cross the bus *)

Lemma as_c_string_cut (head tail : string) :
  as_c_string head = head →
  as_c_string (head +:+ String Ascii.zero tail) = head.
Proof.
  induction head as [|b head IH]; intros Hplain; [done|].
  simpl in *. destruct (decide (b = Ascii.zero)) as [Hb|Hb]; [done|].
  injection Hplain as Hplain. by rewrite IH.
Qed.

(** X24. What goes out through [c_str()] ends at the first NUL: a reply
    whose bytes are a C string [head], then a NUL, then anything, is
    returned on the invocation as [head]; and a message of that form pushed on
    an open connection is signalled as [head]. *)
Theorem replies_and_pushes_end_at_the_first_nul (env : Platform)
    (head tail : string) (invocation : Invocation) (c : nat)
    (instance_id : string) (st : State) :
  as_c_string head = head →
  g_dbus_connection_is_closed env c = false →
  SyncReplyCallback (head +:+ String Ascii.zero tail) invocation st
    = emit_all [ReturnValue invocation head] st
  ∧ PostMessageToJSCallback env (Some c) instance_id
      (head +:+ String Ascii.zero tail) st
    = emit_all
        [SendSignal c (kDBusInterfaceNameForExtension env)
           (kSignalOnMessageToJS env) (as_c_string instance_id) head] st.
Proof.
  intros Hplain Hopen.
  unfold SyncReplyCallback, PostMessageToJSCallback.
  rewrite Hopen. by rewrite (as_c_string_cut _ _ Hplain).
Qed.

(** The reply ["a"], NUL, ["b"] of an instance goes back as ["a"]. *)
Lemma replies_and_pushes_end_at_the_first_nul_witness :
  (as_c_string "a" = "a"
   ∧ g_dbus_connection_is_closed echo_platform 0 = false)
  ∧ SyncReplyCallback ("a" +:+ String Ascii.zero "b") 1 echo_live
    = emit_all [ReturnValue 1 "a"] echo_live.
Proof.
  assert (H1 : as_c_string "a" = "a") by reflexivity.
  assert (H2 : g_dbus_connection_is_closed echo_platform 0 = false)
    by reflexivity.
  split; [by split|].
  exact (proj1 (replies_and_pushes_end_at_the_first_nul echo_platform
                  "a" "b" 1 0 "id" echo_live H1 H2)).
Defined.
